(** * outrigger: junctions_to_events

    A shallow embedding of [outrigger/junctions_to_events.py]: the
    relationship graph built by [JunctionAggregator.__init__], the
    skipped-exon and mutually-exclusive-exon detectors that walk it, and
    [consolidate_junction_events].

    Python exceptions are values of [result]; pandas tables are lists of
    rows in row order; item ids are strings; graph nodes are positions in
    the [items] tuple.  The module is Python 2 code: [map] returns a list
    and a dict is enumerated in insertion order here.  The random choices
    of the consolidator take the drawn number as an argument. *)

From Stdlib Require Import List String Ascii ZArith Lia Bool Arith PeanoNat.
From Stdlib Require Import Permutation.
Import ListNotations.
Open Scope string_scope.
Open Scope list_scope.

(** ** Exceptions *)

Inductive exception : Set :=
| ValueError
| KeyError
| IndexError
| OperationalError
| FeatureNotFoundError.

Inductive result (A : Type) : Type :=
| Ok : A -> result A
| Raise : exception -> result A.

Arguments Ok {A} _.
Arguments Raise {A} _.

Definition bind {A B : Type} (c : result A) (k : A -> result B) : result B :=
  match c with
  | Ok a => k a
  | Raise e => Raise e
  end.

Notation "x <- c ;; k" := (bind c (fun x => k))
  (at level 61, c at next level, right associativity).

Fixpoint mapM {A B : Type} (f : A -> result B) (l : list A)
  : result (list B) :=
  match l with
  | [] => Ok []
  | x :: xs => y <- f x ;; ys <- mapM f xs ;; Ok (y :: ys)
  end.

Fixpoint foldM {A S : Type} (f : S -> A -> result S) (s : S) (l : list A)
  : result S :=
  match l with
  | [] => Ok s
  | x :: xs => s' <- f s x ;; foldM f s' xs
  end.

(** ** Directions *)

Definition UPSTREAM : string := "upstream".
Definition DOWNSTREAM : string := "downstream".
Definition DIRECTIONS : list string := [UPSTREAM; DOWNSTREAM].

(** [opposite(direction)]:
    [UPSTREAM if direction == DOWNSTREAM else DOWNSTREAM]. *)
Definition opposite (direction : string) : string :=
  if String.eqb direction DOWNSTREAM then UPSTREAM else DOWNSTREAM.

(** ** The graph store

    [graphlite.connect(":memory:", graphs=DIRECTIONS)] keeps one table of
    [(src, dst)] rows per relation named in [DIRECTIONS].  graphlite is an
    external dependency; its operations are modelled by the SQL they issue:
    - [store] is [INSERT INTO rel (src, dst)]: a row stored twice is kept
      twice.  The name [rel] is written into the SQL text as it is.  The
      two names of [DIRECTIONS] are the tables that exist; for any other
      name the model gives sqlite's [OperationalError] (no such table),
      although SQLite resolves some other spellings, such as another
      case, to the same tables.  Every statement below about a
      constructed aggregator is therefore about a table whose directions
      are the two names of [DIRECTIONS];
    - [find(V(src).rel)] is [SELECT dst FROM rel WHERE src = ?];
    - [find(V().rel(dst))] is [SELECT src FROM rel WHERE dst = ?];
    - [q.traverse(V().rel)] is [SELECT dst FROM rel WHERE src IN (q)];
    - [q.intersection(e)] is [q INTERSECT e].
    Rows come back in table order. *)

Definition edge : Set := (nat * nat)%type.
Definition table : Set := list edge.

Record Graph : Set := mkGraph {
  upstream : table;
  downstream : table
}.

Definition connect : Graph := mkGraph [] [].

Definition mem (x : nat) (l : list nat) : bool := existsb (Nat.eqb x) l.

Definition insert (e : edge) (t : table) : table := t ++ [e].

Definition store (g : Graph) (src : nat) (rel : string) (dst : nat)
  : result Graph :=
  if String.eqb rel UPSTREAM then
    Ok (mkGraph (insert (src, dst) (upstream g)) (downstream g))
  else if String.eqb rel DOWNSTREAM then
    Ok (mkGraph (upstream g) (insert (src, dst) (downstream g)))
  else Raise OperationalError.

Definition select_dst (t : table) (src : nat) : list nat :=
  map snd (filter (fun e => Nat.eqb (fst e) src) t).

Definition select_src (t : table) (dst : nat) : list nat :=
  map fst (filter (fun e => Nat.eqb (snd e) dst) t).

Definition traverse (t : table) (q : list nat) : list nat :=
  map snd (filter (fun e => mem (fst e) q) t).

Fixpoint distinct (l : list nat) : list nat :=
  match l with
  | [] => []
  | x :: xs => if mem x xs then distinct xs else x :: distinct xs
  end.

Definition intersection (q1 q2 : list nat) : list nat :=
  distinct (filter (fun x => mem x q2) q1).

(** The edge [(a, rel, b)] is in the graph. *)
Definition has_edge (g : Graph) (a : nat) (rel : string) (b : nat) : Prop :=
  (rel = UPSTREAM /\ In (a, b) (upstream g)) \/
  (rel = DOWNSTREAM /\ In (a, b) (downstream g)).

(** ** The triple table *)

Record triple : Set := mkTriple {
  exon : string;
  direction : string;
  junction : string
}.

(** [Series.unique()]: the distinct values in order of first appearance. *)
Fixpoint unique_from (seen : list string) (l : list string) : list string :=
  match l with
  | [] => []
  | x :: xs =>
      if existsb (String.eqb x) seen then unique_from seen xs
      else x :: unique_from (x :: seen) xs
  end.

Definition unique (l : list string) : list string := unique_from [] l.

(** [tuple.index(x)]: the first position of [x], or [ValueError]. *)
Fixpoint index (items : list string) (x : string) : result nat :=
  match items with
  | [] => Raise ValueError
  | y :: ys => if String.eqb y x then Ok 0 else i <- index ys x ;; Ok (S i)
  end.

(** [items[i]] *)
Definition item (items : list string) (i : nat) : result string :=
  match nth_error items i with
  | Some s => Ok s
  | None => Raise IndexError
  end.

(** ** Regions

    Modelled from the spec: the [Region] class ([outrigger/region.py], not
    among the sources).  A region is the read-only view of an item's
    genomic interval, with [name] the original item string; two regions
    overlap iff chromosome and strand match and the [[start, stop)]
    intervals intersect. *)

Record Region : Set := mkRegion {
  name : string;
  chrom : string;
  start : Z;
  stop : Z;
  strand : string
}.

Definition overlaps (a b : Region) : bool :=
  String.eqb (chrom a) (chrom b) && String.eqb (strand a) (strand b) &&
  (Z.max (start a) (start b) <? Z.min (stop a) (stop b))%Z.

Definition location : Set := (string * Z * Z * string)%type.

(** Modelled from the spec: the item encoding [chrom:start-stop:strand],
    optionally prefixed with a type tag such as [exon:]. *)
Fixpoint split_on (c : ascii) (s : string) : list string :=
  match s with
  | EmptyString => [EmptyString]
  | String a rest =>
      if Ascii.eqb a c then EmptyString :: split_on c rest
      else match split_on c rest with
           | [] => [String a EmptyString]
           | w :: ws => String a w :: ws
           end
  end.

Definition digit (a : ascii) : option Z :=
  let n := nat_of_ascii a in
  if Nat.leb 48 n && Nat.leb n 57 then Some (Z.of_nat (n - 48)) else None.

Fixpoint number_from (acc : Z) (s : string) : option Z :=
  match s with
  | EmptyString => Some acc
  | String a rest =>
      match digit a with
      | Some d => number_from (10 * acc + d)%Z rest
      | None => None
      end
  end.

Definition number (s : string) : option Z :=
  match s with
  | EmptyString => None
  | _ => number_from 0%Z s
  end.

Definition parse_location (s : string) : option location :=
  let body :=
    match split_on ":" s with
    | [c; r; d] => Some (c, r, d)
    | [_; c; r; d] => Some (c, r, d)
    | _ => None
    end in
  match body with
  | Some (c, r, d) =>
      match split_on "-" r with
      | [a; b] =>
          match number a, number b with
          | Some x, Some y => Some (c, x, y, d)
          | _, _ => None
          end
      | _ => None
      end
  | None => None
  end.

(** [min((a, b), key=lambda x: x.start)] and the matching [max]: on a
    tie both return the first of the two. *)
Definition min_by_start (a b : Region) : Region :=
  if (start b <? start a)%Z then b else a.

Definition max_by_start (a b : Region) : Region :=
  if (start a <? start b)%Z then b else a.

(** [itertools.combinations(l, 2)] *)
Fixpoint combinations2 {A : Type} (l : list A) : list (A * A) :=
  match l with
  | [] => []
  | x :: xs => map (pair x) xs ++ combinations2 xs
  end.

(** ** Candidate events: a dict from exon tuples to junction lists,
    kept in insertion order *)

Definition key_eqb (k1 k2 : list string) : bool :=
  if list_eq_dec string_dec k1 k2 then true else false.

Definition event_dict : Set := list (list string * list string).

Fixpoint dict_set (d : event_dict) (k : list string) (v : list string)
  : event_dict :=
  match d with
  | [] => [(k, v)]
  | (k', v') :: rest =>
      if key_eqb k' k then (k', v) :: rest
      else (k', v') :: dict_set rest k v
  end.

(** A Python [set] of node indices, enumerated in order of insertion
    (Python leaves the order unspecified). *)
Definition set_of (l : list nat) : list nat := rev (distinct (rev l)).

Definition set_and (s1 s2 : list nat) : list nat :=
  filter (fun x => mem x s2) s1.

(** [s.pop()] *)
Definition pop (s : list nat) : result nat :=
  match s with
  | [] => Raise KeyError
  | x :: _ => Ok x
  end.

(** ** Event tables *)

Record event_row : Set := mkRow {
  row_exons : list string;
  row_junctions : list string;
  row_event_id : string
}.

(** [data.loc[i, names] = values]: one value per column; a single value
    is broadcast; any other length mismatch is a [ValueError]. *)
Definition set_cells (names values : list string) : result (list string) :=
  if Nat.eqb (List.length values) (List.length names) then Ok values
  else match values with
       | [v] => Ok (repeat v (List.length names))
       | _ => Raise ValueError
       end.

Definition event_dict_to_df (events : event_dict)
    (exon_names junction_names : list string) : result (list event_row) :=
  mapM (fun kv : list string * list string =>
          let (exons, junctions) := kv in
          let event_id := String.concat "@" exons in
          es <- set_cells exon_names exons ;;
          js <- set_cells junction_names junctions ;;
          Ok (mkRow es js event_id))
       events.

(** ** JunctionAggregator *)

Record JunctionAggregator : Set := mkAggregator {
  junction_exon_triples : list triple;
  graph : Graph;
  exons : list string;
  junctions : list string;
  items : list string;
  item_to_region : list (string * Region)
}.

(** [series[label]] on the [item_to_region] series *)
Fixpoint loc (s : list (string * Region)) (label : string) : result Region :=
  match s with
  | [] => Raise KeyError
  | (l, r) :: rest => if String.eqb l label then Ok r else loc rest label
  end.

Section Aggregator.

(** How [Region(name)] reads a location out of an item string; [None]
    when it rejects the string. *)
Variable locate : string -> option location.

Definition Region_init (s : string) : result Region :=
  match locate s with
  | Some (c, a, b, d) => Ok (mkRegion s c a b d)
  | None => Raise ValueError
  end.

(** One iteration of the loop of [__init__]: the edge and its mirror. *)
Definition store_row (items : list string) (g : Graph) (row : triple)
  : result Graph :=
  junction_i <- index items (junction row) ;;
  exon_i <- index items (exon row) ;;
  g1 <- store g exon_i (direction row) junction_i ;;
  store g1 junction_i (opposite (direction row)) exon_i.

Definition JunctionAggregator_init (triples : list triple)
  : result JunctionAggregator :=
  let exons := unique (map exon triples) in
  let junctions := unique (map junction triples) in
  let items := exons ++ junctions in
  item_to_region <- mapM (fun s => r <- Region_init s ;; Ok (s, r)) items ;;
  g <- foldM (store_row items) connect triples ;;
  Ok (mkAggregator triples g exons junctions items item_to_region).

(** [self.item_to_region[[self.items[i] for i in q]]] *)
Definition regions_of (self : JunctionAggregator) (q : list nat)
  : result (list Region) :=
  names <- mapM (item (items self)) q ;;
  mapM (loc (item_to_region self)) names.

(** The body of the inner loop of [skipped_exon] for one pair. *)
Definition se_pair (self : JunctionAggregator) (exon1_name : string)
    (exon1_i : nat) (events : event_dict) (p : Region * Region)
  : result event_dict :=
  let (exon_a, exon_b) := p in
  let up := upstream (graph self) in
  let down := downstream (graph self) in
  if negb (overlaps exon_a exon_b) then
    let exon2 := min_by_start exon_a exon_b in
    let exon3 := max_by_start exon_a exon_b in
    exon2_i <- index (items self) (name exon2) ;;
    exon3_i <- index (items self) (name exon3) ;;
    let exon23_junction_i :=
      intersection (select_dst up exon2_i) (select_src up exon3_i) in
    exon23_junction <- mapM (item (items self)) (set_of exon23_junction_i) ;;
    if Nat.ltb 0 (List.length exon23_junction) then
      let exon13_junction :=
        intersection (select_dst up exon1_i) (select_dst down exon3_i) in
      let exon12_junction :=
        intersection (select_dst up exon1_i) (select_dst down exon2_i) in
      let exon23_junction :=
        intersection (select_dst up exon2_i) (select_dst down exon3_i) in
      let junctions_i :=
        exon12_junction ++ exon23_junction ++ exon13_junction in
      junctions <- mapM (item (items self)) junctions_i ;;
      Ok (dict_set events [exon1_name; name exon2; name exon3] junctions)
    else Ok events
  else Ok events.

(** The body of the outer loop of [skipped_exon] for one [exon1]. *)
Definition se_exon1 (self : JunctionAggregator) (events : event_dict)
    (exon1_name : string) : result event_dict :=
  exon1_i <- index (items self) exon1_name ;;
  let exon23s :=
    traverse (upstream (graph self))
             (select_src (downstream (graph self)) exon1_i) in
  exon23s <- regions_of self exon23s ;;
  foldM (se_pair self exon1_name exon1_i) events (combinations2 exon23s).

Definition skipped_exon_events (self : JunctionAggregator)
  : result event_dict :=
  foldM (se_exon1 self) [] (exons self).

Definition skipped_exon (self : JunctionAggregator)
  : result (list event_row) :=
  events <- skipped_exon_events self ;;
  event_dict_to_df events ["exon1"; "exon2"; "exon3"]
                   ["junction12"; "junction23"; "junction13"].

(** The two-hop-upstream candidates for [exon4] shared by a pair. *)
Definition common_exon4 (self : JunctionAggregator) (exon2_i exon3_i : nat)
  : list nat :=
  let up := upstream (graph self) in
  let exon4_from2 := set_of (traverse up (select_dst up exon2_i)) in
  let exon4_from3 := set_of (traverse up (select_dst up exon3_i)) in
  set_and exon4_from2 exon4_from3.

(** The [try] block of [mutually_exclusive_exon]. *)
Definition mxe_try (self : JunctionAggregator) (exon1_name : string)
    (exon1_i : nat) (events : event_dict) (exon2 exon3 : Region)
    (exon2_i exon3_i : nat) : result event_dict :=
  let up := upstream (graph self) in
  let down := downstream (graph self) in
  exon4_i <- pop (common_exon4 self exon2_i exon3_i) ;;
  exon4_name <- item (items self) exon4_i ;;
  let exon13_junction :=
    intersection (select_dst up exon1_i) (select_dst down exon3_i) in
  let exon34_junction :=
    intersection (select_dst up exon3_i) (select_dst down exon4_i) in
  let exon12_junction :=
    intersection (select_dst up exon1_i) (select_dst down exon2_i) in
  let exon24_junction :=
    intersection (select_dst up exon2_i) (select_dst down exon4_i) in
  let exon_tuple := [exon1_name; name exon2; name exon3; exon4_name] in
  junctions <- mapM (item (items self))
                 (exon13_junction ++ exon34_junction ++
                  exon12_junction ++ exon24_junction) ;;
  Ok (dict_set events exon_tuple junctions).

(** The body of the inner loop of [mutually_exclusive_exon] for one pair:
    [try: ... except: pass]. *)
Definition mxe_pair (self : JunctionAggregator) (exon1_name : string)
    (exon1_i : nat) (events : event_dict) (p : Region * Region)
  : result event_dict :=
  let (exon_a, exon_b) := p in
  if negb (overlaps exon_a exon_b) then
    let exon2 := min_by_start exon_a exon_b in
    let exon3 := max_by_start exon_a exon_b in
    exon2_i <- index (items self) (name exon2) ;;
    exon3_i <- index (items self) (name exon3) ;;
    match mxe_try self exon1_name exon1_i events exon2 exon3
                  exon2_i exon3_i with
    | Ok events' => Ok events'
    | Raise _ => Ok events
    end
  else Ok events.

Definition mxe_exon1 (self : JunctionAggregator) (events : event_dict)
    (exon1_name : string) : result event_dict :=
  exon1_i <- index (items self) exon1_name ;;
  let up := upstream (graph self) in
  let down := downstream (graph self) in
  let exon23s_from1 := traverse up (select_src down exon1_i) in
  let exon4s :=
    traverse up (traverse up (traverse up (select_src down exon1_i))) in
  let exon23s_from4 := traverse down (traverse down exon4s) in
  let exon23s := set_and (set_of exon23s_from4) (set_of exon23s_from1) in
  exon23s <- regions_of self exon23s ;;
  foldM (mxe_pair self exon1_name exon1_i) events (combinations2 exon23s).

Definition mutually_exclusive_exon_events (self : JunctionAggregator)
  : result event_dict :=
  foldM (mxe_exon1 self) [] (exons self).

Definition mutually_exclusive_exon (self : JunctionAggregator)
  : result (list event_row) :=
  events <- mutually_exclusive_exon_events self ;;
  event_dict_to_df events ["exon1"; "exon2"; "exon3"; "exon4"]
                   ["junction13"; "junction34"; "junction12"; "junction24"].

End Aggregator.

(** ** Consolidation of duplicate events *)

Definition BEST_TAGS : list string :=
  ["appris_principal"; "appris_candidate"; "CCDS"; "basic"].

(** A transcript feature of the annotation database: its id and its
    multi-valued [tag] attribute, absent ([KeyError]) when [None]. *)
Record Feature : Set := mkFeature {
  feature_id : string;
  tag : option (list string)
}.

(** One row of the group handed to [consolidate_junction_events]:
    [event_col] and the two [transcript_cols]. *)
Record junction_event : Set := mkEvent {
  event_id : string;
  isoform1_transcripts : list string;
  isoform2_transcripts : list string
}.

(** What the second component of the returned pair holds. *)
Inductive selection : Set :=
| EventId (e : string)
| IsoformsRow (isoform1 isoform2 : option (list Feature)).

(** A cell of [df_this_tag]: the list of [startswith] flags that [map]
    builds from a tuple of tags, or [False] for a missing cell. *)
Inductive tag_flags : Set :=
| Flags (l : list bool)
| FalseCell.

(** The truth value [any(axis=1)] gives a cell: a list is true when it is
    not empty. *)
Definition truth (c : tag_flags) : bool :=
  match c with
  | Flags [] => false
  | Flags (_ :: _) => true
  | FalseCell => false
  end.

(** [np.random.choice(a)] with the random draw made explicit. *)
Definition random_choice {A : Type} (draw : nat) (a : list A) : result A :=
  match nth_error a (draw mod List.length a) with
  | Some x => Ok x
  | None => Raise ValueError
  end.

(** [get_attribute(features, 'tag')]: the [tag] value of every feature
    that has one. *)
Fixpoint get_attribute (features : list Feature) : list (list string) :=
  match features with
  | [] => []
  | feature :: rest =>
      match tag feature with
      | Some v => v :: get_attribute rest
      | None => get_attribute rest
      end
  end.

(** A table indexed by the row labels of the group; a missing cell
    ([NaN]) is [None]. *)
Definition frame (A : Type) : Type := list (nat * (option A * option A)).

(** [dropna(how='all')] *)
Definition dropna {A : Type} (df : frame A) : frame A :=
  filter (fun row =>
            match snd row with
            | (None, None) => false
            | _ => true
            end) df.

Definition applymap {A B : Type} (f : option A -> option B) (df : frame A)
  : frame B :=
  map (fun row => (fst row, (f (fst (snd row)), f (snd (snd row))))) df.

(** [df.loc[label, event_col]] *)
Definition loc_event (df : list junction_event) (label : nat)
  : result string :=
  match nth_error df label with
  | Some row => Ok (event_id row)
  | None => Raise KeyError
  end.

Definition labels (df : list junction_event) : list nat :=
  seq 0 (List.length df).

(** [y.startswith(tag)] *)
Definition startswith (y tag : string) : bool := String.prefix tag y.

Section Consolidate.

(** The annotation database, a [gffutils.FeatureDB]: the feature it holds
    for a transcript id, [None] for an id it does not hold. *)
Variable db : string -> option Feature.

(** [db[y]]: an id the database does not hold raises
    [FeatureNotFoundError]. *)
Definition db_getitem (y : string) : result Feature :=
  match db y with
  | Some feature => Ok feature
  | None => Raise FeatureNotFoundError
  end.

(** [lambda x: np.nan if len(x) == 0 else map(lambda y: db[y], x)]; the
    [map] is a list, built at once. *)
Definition isoforms_cell (x : list string)
  : result (option (list Feature)) :=
  match x with
  | [] => Ok None
  | _ => features <- mapM db_getitem x ;; Ok (Some features)
  end.

(** [df[transcript_cols].applymap(...)], one column after the other, and
    [dropna(how='all')]. *)
Definition df_isoforms_of (df : list junction_event)
  : result (frame (list Feature)) :=
  isoform1 <- mapM isoforms_cell (map isoform1_transcripts df) ;;
  isoform2 <- mapM isoforms_cell (map isoform2_transcripts df) ;;
  Ok (dropna (combine (labels df) (combine isoform1 isoform2))).

(** The two [applymap]s and the [dropna] that give [df_tags].  The cells
    are tuples of tags or [NaN], never lists, so the second [applymap]
    returns each cell as it is. *)
Definition df_tags_of (df_isoforms : frame (list Feature))
  : frame (list string) :=
  let df_tags :=
    applymap (fun x => match x with
                       | Some fs => Some (List.concat (get_attribute fs))
                       | None => None
                       end) df_isoforms in
  let df_tags := applymap (fun x => x) df_tags in
  dropna df_tags.

(** [df_this_tag.any(axis=1)] for one tag: the labels, each with its
    truth value. *)
Definition df_this_tag_of (tag : string) (df_tags : frame (list string))
  : list (nat * bool) :=
  let cell (x : option (list string)) :=
    match x with
    | Some t => Flags (map (fun y => startswith y tag) t)
    | None => FalseCell
    end in
  map (fun row => (fst row,
                   truth (cell (fst (snd row))) ||
                   truth (cell (snd (snd row))))) df_tags.

(** The [for tag in BEST_TAGS: ... else: ...] loop. *)
Fixpoint best_tag_loop (df : list junction_event)
    (df_tags : frame (list string)) (draw : nat) (tags : list string)
  : result (string * selection) :=
  match tags with
  | [] =>
      i <- random_choice draw (labels df) ;;
      e <- loc_event df i ;;
      Ok ("random,no good tags", EventId e)
  | tag :: rest =>
      let df_this_tag := df_this_tag_of tag df_tags in
      if existsb snd df_this_tag then
        best_index <-
          random_choice draw (map fst (filter snd df_this_tag)) ;;
        e <- loc_event df best_index ;;
        Ok (String.append "best," tag, EventId e)
      else best_tag_loop df df_tags draw rest
  end.

Definition consolidate_junction_events (df : list junction_event)
    (draw : nat) : result (string * selection) :=
  if Nat.eqb (List.length df) 1 then
    e <- loc_event df 0 ;;
    Ok ("only one", EventId e)
  else
    df_isoforms <- df_isoforms_of df ;;
    match df_isoforms with
    | [] =>
        i <- random_choice draw (labels df) ;;
        e <- loc_event df i ;;
        Ok ("random,no gencode transcripts", EventId e)
    | [(i, _)] =>
        e <- loc_event df i ;;
        Ok ("one event with gencode transcripts", EventId e)
    | _ =>
        let df_tags := df_tags_of df_isoforms in
        match df_tags with
        | [] =>
            row <- random_choice draw df_isoforms ;;
            Ok ("random df_isoforms",
                IsoformsRow (fst (snd row)) (snd (snd row)))
        | _ => best_tag_loop df df_tags draw BEST_TAGS
        end
    end.

End Consolidate.

(** ** Junctions adjacent to exons *)

(** An exon feature of the annotation database ([exon.id], [exon.chrom],
    [exon.start], [exon.stop], [exon.strand]). *)
Record exon_feature : Set := mkExonFeature {
  ef_id : string;
  ef_chrom : string;
  ef_start : Z;
  ef_stop : Z;
  ef_strand : string
}.

(** A row of [sj_metadata]: the junction id of the index and the columns
    [chrom], [strand], [exon_start], [exon_stop]. *)
Record sj_row : Set := mkSjRow {
  sj_junction : string;
  sj_chrom : string;
  sj_strand : string;
  sj_exon_start : Z;
  sj_exon_stop : Z
}.

(** A boolean series indexed by the junction ids of [sj_metadata]. *)
Definition mask : Set := list (string * bool).

(** [ind.any()] *)
Definition any (ind : mask) : bool := existsb snd ind.

(** [make_junction_direction_df]: one row [(exon_id, direction, junction)]
    for every junction the mask selects; [zip] stops with the selected
    index. *)
Definition make_junction_direction_df (direction_ind : mask)
    (direction exon_id : string) : list triple :=
  map (fun junction => mkTriple exon_id direction junction)
      (map fst (filter snd direction_ind)).

(** The dict [{UPSTREAM: ..., DOWNSTREAM: ...}] of two masks. *)
Record adjacency : Set := mkAdjacency {
  adj_upstream : mask;
  adj_downstream : mask
}.

Definition genome_adjacent (exon : exon_feature) (sj_metadata : list sj_row)
  : adjacency :=
  let chrom_ind r := String.eqb (sj_chrom r) (ef_chrom exon) in
  let strand_ind r := String.eqb (sj_strand r) (ef_strand exon) in
  let upstream_in_genome :=
    map (fun r => (sj_junction r,
                   chrom_ind r && strand_ind r &&
                   Z.eqb (sj_exon_stop r) (ef_stop exon))) sj_metadata in
  let downstream_in_genome :=
    map (fun r => (sj_junction r,
                   chrom_ind r && strand_ind r &&
                   Z.eqb (sj_exon_start r) (ef_start exon))) sj_metadata in
  mkAdjacency upstream_in_genome downstream_in_genome.

(** [genome_to_transcript_adjacency]: the masks as they are on ['+'],
    exchanged on ['-'], and [None] (no [return]) on any other strand. *)
Definition genome_to_transcript_adjacency (adjacent_in_genome : adjacency)
    (strand : string) : option adjacency :=
  if String.eqb strand "+" then
    Some (mkAdjacency (adj_upstream adjacent_in_genome)
                      (adj_downstream adjacent_in_genome))
  else if String.eqb strand "-" then
    Some (mkAdjacency (adj_downstream adjacent_in_genome)
                      (adj_upstream adjacent_in_genome))
  else None.

(** What [adjacent_junctions] raises when [genome_to_transcript_adjacency]
    has returned [None]: [None.items()]. *)
Inductive attribute_error : Set := AttributeError.

(** The frames appended to [dfs] for the masks of one exon, in the order
    of the pairs. *)
Definition direction_dfs (exon_id : string) (inds : list (string * mask))
  : list (list triple) :=
  flat_map (fun di : string * mask =>
              if any (snd di)
              then [make_junction_direction_df (snd di) (fst di) exon_id]
              else []) inds.

Definition adjacent_junctions (exon : exon_feature)
    (sj_metadata : list sj_row) : list triple + attribute_error :=
  let adjacent_in_genome := genome_adjacent exon sj_metadata in
  match genome_to_transcript_adjacency adjacent_in_genome (ef_strand exon)
  with
  | None => inr AttributeError
  | Some adjacent_in_transcriptome =>
      let dfs :=
        direction_dfs (ef_id exon)
          [(UPSTREAM, adj_upstream adjacent_in_transcriptome);
           (DOWNSTREAM, adj_downstream adjacent_in_transcriptome)] in
      inl (if Nat.ltb 0 (List.length dfs) then List.concat dfs else [])
  end.

(** [get_adjacent_exons]: every exon of the database against every
    junction, in genome orientation; [pd.concat] of no frame at all is a
    [ValueError]. *)
Definition get_adjacent_exons (sj_metadata : list sj_row)
    (db : list exon_feature) : result (list triple) :=
  let dfs :=
    flat_map
      (fun exon =>
         let chrom_ind r := String.eqb (sj_chrom r) (ef_chrom exon) in
         let strand_ind r := String.eqb (sj_strand r) (ef_strand exon) in
         let upstream_ind :=
           map (fun r => (sj_junction r,
                          chrom_ind r && strand_ind r &&
                          Z.eqb (sj_exon_stop r) (ef_stop exon)))
               sj_metadata in
         let downstream_ind :=
           map (fun r => (sj_junction r,
                          chrom_ind r && strand_ind r &&
                          Z.eqb (sj_exon_start r) (ef_start exon)))
               sj_metadata in
         direction_dfs (ef_id exon)
           [(UPSTREAM, upstream_ind); (DOWNSTREAM, downstream_ind)])
      db in
  match dfs with
  | [] => Raise ValueError
  | _ :: _ => Ok (List.concat dfs)
  end.

(** ** The per-exon checks *)

(** [_check_exon_in_se_event] and [_check_exon_in_mxe_event]: the body of
    the detector's loop for one [exon1], on an empty dict of its own. *)
Definition _check_exon_in_se_event (self : JunctionAggregator)
    (exon1_name : string) : result event_dict :=
  se_exon1 self [] exon1_name.

Definition _check_exon_in_mxe_event (self : JunctionAggregator)
    (exon1_name : string) : result event_dict :=
  mxe_exon1 self [] exon1_name.

(** ** Features selected by an attribute *)

Section FeatureAttributes.

(** Any kind of feature, with [feature[attribute]] ([None] for a
    [KeyError]) and [feature.id]. *)
Variable feature : Type.
Variable getitem : feature -> string -> option (list string).
Variable id_of : feature -> string.

(** [get_feature_attribute_with_value]; [features] is [None] when it is
    not iterable ([TypeError]). *)
Definition get_feature_attribute_with_value
    (features : option (list feature)) (attribute value : string)
  : list string :=
  match features with
  | None => []
  | Some fs =>
      flat_map (fun f =>
                  match getitem f attribute with
                  | Some values =>
                      if existsb (String.eqb value) values
                      then [id_of f] else []
                  | None => []
                  end) fs
  end.

Definition get_feature_attribute_startswith_value
    (features : option (list feature)) (attribute value : string)
  : list string :=
  match features with
  | None => []
  | Some fs =>
      flat_map (fun f =>
                  match getitem f attribute with
                  | Some values =>
                      if existsb (fun x => startswith x value) values
                      then [id_of f] else []
                  | None => []
                  end) fs
  end.

End FeatureAttributes.

(** ** Location strings *)

(** The decimal digits of a natural number [n], most significant first,
    in front of [acc]; [fuel] bounds the number of digits. *)
Fixpoint digits_of (fuel : nat) (n : Z) (acc : string) : string :=
  match fuel with
  | O => acc
  | S fuel' =>
      let acc' := String (ascii_of_nat (48 + Z.to_nat (n mod 10))) acc in
      if (n <? 10)%Z then acc' else digits_of fuel' (n / 10)%Z acc'
  end.

(** ['{}'.format(n)] for an integer [n]. *)
Definition format_int (n : Z) : string :=
  if (n <? 0)%Z
  then String "-" (digits_of (S (Z.to_nat (Z.log2 (- n)))) (- n) "")
  else digits_of (S (Z.to_nat (Z.log2 n))) n "".

(** [stringify_location], with [start] and [stop] integers. *)
Definition stringify_location (chrom : string) (start stop : Z)
    (strand : string) (region : option string) : string :=
  let location :=
    String.append chrom
      (String.append ":"
         (String.append (format_int start)
            (String.append "-"
               (String.append (format_int stop)
                  (String.append ":" strand))))) in
  match region with
  | Some region => String.append region (String.append ":" location)
  | None => location
  end.

(** ** Worked inputs *)

(** The triple table of the skipped-exon scenario: [e1] is upstream of
    [j1] and [j3], [e2] downstream of [j1] and upstream of [j2], [e3]
    downstream of [j2] and [j3]. *)
Definition six_triples (e1 e2 e3 j1 j2 j3 : string) : list triple :=
  [mkTriple e1 UPSTREAM j1; mkTriple e2 DOWNSTREAM j1;
   mkTriple e2 UPSTREAM j2; mkTriple e3 DOWNSTREAM j2;
   mkTriple e1 UPSTREAM j3; mkTriple e3 DOWNSTREAM j3].

Definition exonA : string := "exon:chr1:100-200:+".
Definition exonB : string := "exon:chr1:300-400:+".
Definition exonC : string := "exon:chr1:500-600:+".
Definition exonD : string := "exon:chr1:700-800:+".
Definition exonE : string := "exon:chr1:900-1000:+".
Definition junctionAB : string := "chr1:201-299:+".
Definition junctionBC : string := "chr1:401-499:+".
Definition junctionAC : string := "chr1:201-499:+".

Definition scenario_triples : list triple :=
  six_triples exonA exonB exonC junctionAB junctionBC junctionAC.

(** The same topology with a first exon that lies after the other two. *)
Definition late_exon1_triples : list triple :=
  six_triples exonD exonB exonC junctionAB junctionBC junctionAC.

(** The same topology with a first exon that overlaps the second. *)
Definition overlapping_exon1_triples : list triple :=
  six_triples "exon:chr1:250-350:+" exonB exonC
              junctionAB junctionBC junctionAC.

(** The scenario with a second junction between [exonB] and [exonC]. *)
Definition two_junction_triples : list triple :=
  scenario_triples ++
  [mkTriple exonB UPSTREAM "chr1:401-498:+";
   mkTriple exonC DOWNSTREAM "chr1:401-498:+"].

(** [exonA] is followed by [exonB] and by [exonC], which lead on to
    different exons, [exonD] and [exonE]. *)
Definition no_common_exon4_triples : list triple :=
  [mkTriple exonA UPSTREAM "chr1:201-299:+";
   mkTriple exonB DOWNSTREAM "chr1:201-299:+";
   mkTriple exonA UPSTREAM "chr1:201-499:+";
   mkTriple exonC DOWNSTREAM "chr1:201-499:+";
   mkTriple exonB UPSTREAM "chr1:401-699:+";
   mkTriple exonD DOWNSTREAM "chr1:401-699:+";
   mkTriple exonC UPSTREAM "chr1:601-899:+";
   mkTriple exonE DOWNSTREAM "chr1:601-899:+"].

(** A detector run from the triple table on. *)
Definition run_skipped_exon (locate : string -> option location)
    (triples : list triple) : result (list event_row) :=
  self <- JunctionAggregator_init locate triples ;; skipped_exon self.

(** An annotation database of five transcripts: [T1] carries the
    top-priority tag, [T2] the two lower ones, [T3] has an empty tag
    list, [T4] is tagged [basic] and [T5] has no [tag] attribute.  It
    holds no other id. *)
Definition example_db (y : string) : option Feature :=
  if String.eqb y "T1"
  then Some (mkFeature y (Some ["appris_principal_1"; "basic"]))
  else if String.eqb y "T2" then Some (mkFeature y (Some ["CCDS"; "basic"]))
  else if String.eqb y "T3" then Some (mkFeature y (Some []))
  else if String.eqb y "T4" then Some (mkFeature y (Some ["basic"]))
  else if String.eqb y "T5" then Some (mkFeature y None)
  else None.

(** Two detections of one event, only the first with transcripts. *)
Definition one_annotated_group : list junction_event :=
  [mkEvent "event1" ["T1"] []; mkEvent "event2" [] []].

(** Two detections, the first tagged [basic] only, the second [CCDS]. *)
Definition basic_and_ccds_group : list junction_event :=
  [mkEvent "event1" ["T4"] []; mkEvent "event2" [] ["T2"]].


(** The three exons of the scenario as features of the annotation, and
    the junctions between them as rows of [sj_metadata]: a junction's
    [exon_stop] is the stop of the exon before it, its [exon_start] the
    start of the exon after it. *)
Definition scenario_exons : list exon_feature :=
  [mkExonFeature exonA "chr1" 100 200 "+";
   mkExonFeature exonB "chr1" 300 400 "+";
   mkExonFeature exonC "chr1" 500 600 "+"].

Definition scenario_sj_metadata : list sj_row :=
  [mkSjRow junctionAB "chr1" "+" 300 200;
   mkSjRow junctionBC "chr1" "+" 500 400;
   mkSjRow junctionAC "chr1" "+" 500 200].

(** An exon of the reverse strand with one junction at each end. *)
Definition minus_exon : exon_feature :=
  mkExonFeature "exon:chr1:300-400:-" "chr1" 300 400 "-".

Definition minus_sj_metadata : list sj_row :=
  [mkSjRow "chr1:201-299:-" "chr1" "-" 300 200;
   mkSjRow "chr1:401-499:-" "chr1" "-" 500 400].

(** Two mutually exclusive exons: [exonB] and [exonC] both lie between
    [exonA] and [exonD], each joined to them by its own junctions. *)
Definition junctionBD : string := "chr1:401-699:+".
Definition junctionCD : string := "chr1:601-699:+".

Definition mxe_triples : list triple :=
  [mkTriple exonA UPSTREAM junctionAB; mkTriple exonB DOWNSTREAM junctionAB;
   mkTriple exonA UPSTREAM junctionAC; mkTriple exonC DOWNSTREAM junctionAC;
   mkTriple exonB UPSTREAM junctionBD; mkTriple exonD DOWNSTREAM junctionBD;
   mkTriple exonC UPSTREAM junctionCD; mkTriple exonD DOWNSTREAM junctionCD].

(** ** Predicates used in the statements *)


Definition subgraph (g g' : Graph) : Prop :=
  (forall e, In e (upstream g) -> In e (upstream g')) /\
  (forall e, In e (downstream g) -> In e (downstream g')).

(** The edges one row of the triple table puts into the [upstream] and
    into the [downstream] table. *)
Definition row_up (items : list string) (t : triple) (p : edge) : Prop :=
  exists ei ji,
    index items (exon t) = Ok ei /\ index items (junction t) = Ok ji /\
    ((direction t = UPSTREAM /\ p = (ei, ji)) \/
     (direction t = DOWNSTREAM /\ p = (ji, ei))).

Definition row_down (items : list string) (t : triple) (p : edge) : Prop :=
  exists ei ji,
    index items (exon t) = Ok ei /\ index items (junction t) = Ok ji /\
    ((direction t = DOWNSTREAM /\ p = (ei, ji)) \/
     (direction t = UPSTREAM /\ p = (ji, ei))).

(** The position of [x] in [items], for an [x] that is there. *)
Definition position (items : list string) (x : string) : nat :=
  match index items x with
  | Ok i => i
  | Raise _ => 0
  end.

(** The row one row of the triple table appends to the [upstream] and to
    the [downstream] table. *)
Definition up_edge (items : list string) (t : triple) : edge :=
  if String.eqb (direction t) UPSTREAM
  then (position items (exon t), position items (junction t))
  else (position items (junction t), position items (exon t)).

Definition down_edge (items : list string) (t : triple) : edge :=
  if String.eqb (direction t) UPSTREAM
  then (position items (junction t), position items (exon t))
  else (position items (exon t), position items (junction t)).

(** Every node of the graph is a position in a tuple of [n] items. *)
Definition nodes_below (n : nat) (g : Graph) : Prop :=
  forall a b,
    In (a, b) (upstream g) \/ In (a, b) (downstream g) -> a < n /\ b < n.

Definition all_below (n : nat) (q : list nat) : Prop :=
  forall x, In x q -> x < n.

(** The row has transcripts in at least one of the transcript columns. *)
Definition has_transcripts (row : junction_event) : bool :=
  match isoform1_transcripts row, isoform2_transcripts row with
  | [], [] => false
  | _, _ => true
  end.

(** Every transcript id of the group is held by the database: the
    transcripts of every row are resolvable. *)
Definition known (db : string -> option Feature)
    (df : list junction_event) : bool :=
  forallb (fun row =>
             forallb (fun y => match db y with
                               | Some _ => true
                               | None => false
                               end)
                     (isoform1_transcripts row ++ isoform2_transcripts row))
          df.

(** The feature of an id the database holds. *)
Definition feature_of (db : string -> option Feature) (y : string)
  : Feature :=
  match db y with
  | Some feature => feature
  | None => mkFeature y None
  end.

(** The table [df_isoforms] of a group whose transcript ids all have a
    feature, [features] giving it. *)
Definition isoforms_frame (features : string -> Feature)
    (df : list junction_event) : frame (list Feature) :=
  let cell (x : list string) :=
    match x with
    | [] => None
    | _ => Some (map features x)
    end in
  dropna (map (fun ir : nat * junction_event =>
                 (fst ir, (cell (isoform1_transcripts (snd ir)),
                           cell (isoform2_transcripts (snd ir)))))
              (combine (labels df) df)).

(** All tags carried by the transcripts of a row. *)
Definition row_tags (features : string -> Feature) (row : junction_event)
  : list string :=
  List.concat (get_attribute (map features (isoform1_transcripts row))) ++
  List.concat (get_attribute (map features (isoform2_transcripts row))).

Definition has_tags (features : string -> Feature) (row : junction_event)
  : bool :=
  match row_tags features row with
  | [] => false
  | _ :: _ => true
  end.

(** A region the aggregator built from its own name. *)
Definition known_region (locate : string -> option location) (r : Region)
  : Prop :=
  Region_init locate (name r) = Ok r.

(** The exon2 and exon3 entries of an exon tuple are known regions, the
    first starting no later than the second, and non-overlapping unless
    their starts coincide. *)
Definition exon2_exon3_ordered (locate : string -> option location)
    (k : list string) : Prop :=
  exists exon2 exon3,
    nth_error k 1 = Some (name exon2) /\
    nth_error k 2 = Some (name exon3) /\
    known_region locate exon2 /\ known_region locate exon3 /\
    (start exon2 <= start exon3)%Z /\
    (start exon2 <> start exon3 -> overlaps exon2 exon3 = false).

Definition events_ordered (locate : string -> option location) (n : nat)
    (events : event_dict) : Prop :=
  forall k v,
    In (k, v) events -> List.length k = n /\ exon2_exon3_ordered locate k.

(** The junction of [r] lies against the exon [e] in the genome, on the
    side [d]: same chromosome and strand, and the junction's [exon_stop]
    is the exon's stop ([upstream]) or its [exon_start] the exon's start
    ([downstream]). *)
Definition genome_side (e : exon_feature) (r : sj_row) (d : string) : Prop :=
  sj_chrom r = ef_chrom e /\ sj_strand r = ef_strand e /\
  ((d = UPSTREAM /\ sj_exon_stop r = ef_stop e) \/
   (d = DOWNSTREAM /\ sj_exon_start r = ef_start e)).

(** The triple [t] relates the exon [e] to a junction of [sj_metadata]
    that lies on its side [d]. *)
Definition relates (sj_metadata : list sj_row) (e : exon_feature)
    (d : string) (t : triple) : Prop :=
  exon t = ef_id e /\
  exists r, In r sj_metadata /\ junction t = sj_junction r /\
            genome_side e r d.

(** What one candidate pair does to the dict of events: nothing, or one
    assignment [events[key] = junctions]. *)
Definition pair_step (A : Type)
    (step : event_dict -> A -> result event_dict) (exon1_name : string)
  : Prop :=
  forall p,
    (forall events, step events p = Ok events) \/
    (exists e, forall events, step events p = Raise e) \/
    (exists k v, (forall events,
                    step events p = Ok (dict_set events (exon1_name :: k) v))).


(** Every id of the event [(k, v)] is an item of the aggregator, and its
    first exon is one of [self.exons]. *)
Definition ids_known (self : JunctionAggregator)
    (kv : list string * list string) : Prop :=
  (forall x, In x (fst kv) \/ In x (snd kv) -> In x (items self)) /\
  (exists x, hd_error (fst kv) = Some x /\ In x (exons self)).



(** The character [c] occurs in [s]. *)
Fixpoint has_char (c : ascii) (s : string) : bool :=
  match s with
  | EmptyString => false
  | String a rest => Ascii.eqb a c || has_char c rest
  end.

(** * Properties *)

(** ** The error monad *)

Lemma bind_Ok {A B : Type} (c : result A) (k : A -> result B) (b : B) :
  bind c k = Ok b -> exists a, c = Ok a /\ k a = Ok b.
Proof.
  destruct c as [a | e]; simpl; intro H.
  - exists a. split; [reflexivity | exact H].
  - discriminate H.
Qed.

Ltac inv_bind H :=
  let a := fresh "v" in
  let Ha := fresh "Hv" in
  apply bind_Ok in H; destruct H as [a [Ha H]].

Lemma foldM_invariant {A S : Type} (f : S -> A -> result S) (P : S -> Prop)
    (l : list A) :
  (forall s x s', In x l -> P s -> f s x = Ok s' -> P s') ->
  forall s s', P s -> foldM f s l = Ok s' -> P s'.
Proof.
  induction l as [| x xs IH]; simpl; intros Hstep s s' Hs H.
  - injection H as <-. exact Hs.
  - inv_bind H.
    apply (IH (fun s0 x0 s0' Hx => Hstep s0 x0 s0' (or_intror Hx)) v s');
      [| exact H].
    apply (Hstep s x v); auto.
Qed.

Lemma mapM_In {A B : Type} (f : A -> result B) (l : list A) (l' : list B) :
  mapM f l = Ok l' ->
  forall y, In y l' -> exists x, In x l /\ f x = Ok y.
Proof.
  revert l'. induction l as [| x xs IH]; simpl; intros l' H y Hy.
  - injection H as <-. contradiction.
  - inv_bind H. inv_bind H. injection H as <-.
    destruct Hy as [<- | Hy].
    + exists x. auto.
    + destruct (IH _ Hv0 y Hy) as [x' [Hx' Hf]]. exists x'. auto.
Qed.

Lemma mapM_Ok_all {A B : Type} (f : A -> result B) (l : list A)
    (l' : list B) :
  mapM f l = Ok l' -> forall x, In x l -> exists y, f x = Ok y.
Proof.
  revert l'. induction l as [| a l IH]; simpl; intros l' H x Hx;
    [contradiction |].
  inv_bind H. inv_bind H. destruct Hx as [<- | Hx]; eauto.
Qed.


(** ** Directions *)

(** C10. [opposite] swaps the two valid directions, so it is an
    involution on [DIRECTIONS]; it is total on strings and sends every
    string other than ['downstream'] to ['downstream'], so outside
    [DIRECTIONS] applying it twice does not give the input back. *)
Theorem opposite_involution_on_directions_only :
  opposite UPSTREAM = DOWNSTREAM /\
  opposite DOWNSTREAM = UPSTREAM /\
  (forall d, In d DIRECTIONS -> opposite (opposite d) = d) /\
  (forall d, d <> DOWNSTREAM -> opposite d = DOWNSTREAM) /\
  (forall d, ~ In d DIRECTIONS -> opposite (opposite d) <> d).
Proof.
  split; [reflexivity |]. split; [reflexivity |].
  split; [| split].
  - intros d [<- | [<- | []]]; reflexivity.
  - intros d Hd. unfold opposite.
    destruct (String.eqb_spec d DOWNSTREAM) as [-> | _];
      [contradiction | reflexivity].
  - intros d Hd Heq. unfold opposite in Heq at 2.
    destruct (String.eqb_spec d DOWNSTREAM) as [-> | _].
    + apply Hd. simpl. auto.
    + change (opposite DOWNSTREAM) with UPSTREAM in Heq.
      apply Hd. simpl. auto.
Qed.

Lemma opposite_involution_witness :
  opposite (opposite "downstream") = "downstream" /\
  opposite "sideways" = "downstream" /\
  opposite (opposite "sideways") <> "sideways".
Proof.
  destruct opposite_involution_on_directions_only
    as [_ [_ [Hinv [Hother Hfail]]]].
  split; [| split].
  - apply Hinv. simpl. auto.
  - apply Hother. discriminate.
  - apply Hfail. simpl. intros [H | [H | []]]; discriminate H.
Defined.

(** ** The graph builder *)

Lemma In_insert (e x : edge) (t : table) :
  In x (insert e t) <-> x = e \/ In x t.
Proof. unfold insert. rewrite in_app_iff. simpl. intuition. Qed.




Lemma store_spec (g g' : Graph) src rel dst :
  store g src rel dst = Ok g' ->
  In rel DIRECTIONS /\ subgraph g g' /\ has_edge g' src rel dst /\
  (forall a b, In (a, b) (upstream g') <->
               (rel = UPSTREAM /\ (a, b) = (src, dst)) \/
               In (a, b) (upstream g)) /\
  (forall a b, In (a, b) (downstream g') <->
               (rel = DOWNSTREAM /\ (a, b) = (src, dst)) \/
               In (a, b) (downstream g)).
Proof.
  unfold store. intro H.
  destruct (String.eqb_spec rel UPSTREAM) as [-> | Hu].
  - injection H as <-. simpl.
    split; [auto |]. split; [| split; [| split]].
    + split; simpl; intros e He; [apply In_insert |]; auto.
    + left. simpl. split; [reflexivity |]. apply In_insert. auto.
    + intros a b. rewrite In_insert. intuition.
    + intros a b. split; [auto |]. intros [[Hc _] | Hin]; [discriminate Hc | exact Hin].
  - destruct (String.eqb_spec rel DOWNSTREAM) as [-> | Hd]; [| discriminate H].
    injection H as <-. simpl.
    split; [auto |]. split; [| split; [| split]].
    + split; simpl; intros e He; [| apply In_insert]; auto.
    + right. simpl. split; [reflexivity |]. apply In_insert. auto.
    + intros a b. split; [auto |]. intros [[Hc _] | Hin]; [discriminate Hc | exact Hin].
    + intros a b. rewrite In_insert. intuition.
Qed.

Lemma opposite_direction (d : string) :
  In d DIRECTIONS ->
  (d = UPSTREAM /\ opposite d = DOWNSTREAM) \/
  (d = DOWNSTREAM /\ opposite d = UPSTREAM).
Proof.
  intros [<- | [<- | []]]; [left | right]; split; reflexivity.
Qed.



Lemma init_fields (locate : string -> option location)
    (triples : list triple) (self : JunctionAggregator) :
  JunctionAggregator_init locate triples = Ok self ->
  junction_exon_triples self = triples /\
  exons self = unique (map exon triples) /\
  junctions self = unique (map junction triples) /\
  items self = exons self ++ junctions self /\
  mapM (fun s => r <- Region_init locate s ;; Ok (s, r)) (items self)
    = Ok (item_to_region self) /\
  foldM (store_row (items self)) connect triples = Ok (graph self).
Proof.
  unfold JunctionAggregator_init. intro H.
  inv_bind H. inv_bind H. injection H as <-. simpl. auto 6.
Qed.



(** ** Names of regions and distinct ids *)

Lemma Region_init_name (locate : string -> option location) (s : string)
    (r : Region) :
  Region_init locate s = Ok r -> name r = s.
Proof.
  unfold Region_init.
  destruct (locate s) as [[[[c a] b] d] |]; intro H;
    [injection H as <-; reflexivity | discriminate H].
Qed.

Lemma NoDup_eqb_false (l : list string) :
  NoDup l ->
  forall i j x y,
    nth_error l i = Some x -> nth_error l j = Some y ->
    i <> j -> String.eqb x y = false.
Proof.
  intros Hnd i j x y Hi Hj Hij. apply String.eqb_neq. intros ->.
  apply Hij. rewrite NoDup_nth_error in Hnd. apply Hnd.
  - apply nth_error_Some. congruence.
  - congruence.
Qed.

Ltac distinct_pair Hne i j :=
  let H := fresh "Hne" in
  try (pose proof (Hne i j _ _ eq_refl eq_refl ltac:(discriminate)) as H).

Ltac distinct_from Hne i :=
  distinct_pair Hne i 0; distinct_pair Hne i 1; distinct_pair Hne i 2;
  distinct_pair Hne i 3; distinct_pair Hne i 4; distinct_pair Hne i 5.

(** ** What the detectors guarantee about exon2 and exon3 *)

Lemma overlaps_sym (a b : Region) : overlaps a b = overlaps b a.
Proof.
  unfold overlaps.
  rewrite (String.eqb_sym (chrom a)), (String.eqb_sym (strand a)).
  rewrite (Z.max_comm (start a)), (Z.min_comm (stop a)). reflexivity.
Qed.

Lemma In_dict_set (d : event_dict) (k v : list string)
    (x : list string * list string) :
  In x (dict_set d k v) -> x = (k, v) \/ In x d.
Proof.
  induction d as [| [k' v'] rest IH]; simpl.
  - intros [<- | []]. auto.
  - unfold key_eqb. destruct (list_eq_dec string_dec k' k) as [-> | Hne].
    + intros [<- | H]; auto.
    + intros [<- | H]; auto. destruct (IH H); auto.
Qed.

Section Detectors.

Variable locate : string -> option location.

Local Abbreviation known := (known_region locate).
Local Abbreviation ordered_pair := (exon2_exon3_ordered locate).
Local Abbreviation events_ok := (events_ordered locate).

Lemma min_max_ordered (exon_a exon_b : Region) (x1 : string)
    (rest : list string) :
  known exon_a -> known exon_b ->
  overlaps exon_a exon_b = false ->
  ordered_pair (x1 :: name (min_by_start exon_a exon_b)
                   :: name (max_by_start exon_a exon_b) :: rest).
Proof.
  intros Ha Hb Ho.
  exists (min_by_start exon_a exon_b), (max_by_start exon_a exon_b).
  unfold min_by_start, max_by_start.
  destruct (start exon_b <? start exon_a)%Z eqn:Hba;
    destruct (start exon_a <? start exon_b)%Z eqn:Hab;
    try apply Z.ltb_lt in Hba; try apply Z.ltb_ge in Hba;
    try apply Z.ltb_lt in Hab; try apply Z.ltb_ge in Hab;
    repeat split; auto; try lia.
  intros _. rewrite overlaps_sym. exact Ho.
Qed.

Lemma loc_known (l : list string) (series : list (string * Region)) :
  mapM (fun s => r <- Region_init locate s ;; Ok (s, r)) l = Ok series ->
  forall label r, loc series label = Ok r -> known r.
Proof.
  revert series. induction l as [| s l IH]; simpl; intros series H label r.
  - injection H as <-. discriminate.
  - inv_bind H. inv_bind H. injection H as <-.
    inv_bind Hv. injection Hv as <-. simpl.
    destruct (String.eqb_spec s label) as [-> | _].
    + intro E. injection E as <-. unfold known.
      rewrite (Region_init_name _ _ _ Hv1). exact Hv1.
    + apply (IH _ Hv0).
Qed.

Variable triples : list triple.
Variable self : JunctionAggregator.
Hypothesis Hinit : JunctionAggregator_init locate triples = Ok self.

Lemma regions_of_known (q : list nat) (regions : list Region) :
  regions_of self q = Ok regions -> Forall known regions.
Proof.
  unfold regions_of. intro H. inv_bind H.
  apply Forall_forall. intros r Hr.
  destruct (mapM_In _ _ _ H r Hr) as [label [_ Hloc]].
  apply init_fields in Hinit.
  destruct Hinit as [_ [_ [_ [_ [Hseries _]]]]].
  exact (loc_known _ _ Hseries _ _ Hloc).
Qed.

Lemma se_pair_ok (exon1_name : string) (exon1_i : nat)
    (events events' : event_dict) (exon_a exon_b : Region) :
  known exon_a -> known exon_b -> events_ok 3 events ->
  se_pair self exon1_name exon1_i events (exon_a, exon_b) = Ok events' ->
  events_ok 3 events'.
Proof.
  intros Ha Hb Hev. unfold se_pair.
  destruct (overlaps exon_a exon_b) eqn:Ho; simpl;
    [intro H; injection H as <-; exact Hev |].
  intro H. inv_bind H. inv_bind H. inv_bind H.
  destruct (Nat.ltb 0 (List.length v1));
    [| injection H as <-; exact Hev].
  inv_bind H. injection H as <-.
  intros k w Hin. apply In_dict_set in Hin. destruct Hin as [E | Hin].
  - injection E as -> ->. split; [reflexivity |].
    apply min_max_ordered; assumption.
  - exact (Hev _ _ Hin).
Qed.

Lemma mxe_pair_ok (exon1_name : string) (exon1_i : nat)
    (events events' : event_dict) (exon_a exon_b : Region) :
  known exon_a -> known exon_b -> events_ok 4 events ->
  mxe_pair self exon1_name exon1_i events (exon_a, exon_b) = Ok events' ->
  events_ok 4 events'.
Proof.
  intros Ha Hb Hev. unfold mxe_pair.
  destruct (overlaps exon_a exon_b) eqn:Ho; simpl;
    [intro H; injection H as <-; exact Hev |].
  intro H. inv_bind H. inv_bind H.
  destruct (mxe_try self exon1_name exon1_i events
              (min_by_start exon_a exon_b) (max_by_start exon_a exon_b)
              v v0) as [ev | e] eqn:Htry;
    injection H as <-; [| exact Hev].
  unfold mxe_try in Htry. inv_bind Htry. inv_bind Htry. inv_bind Htry.
  injection Htry as <-.
  intros k w Hin. apply In_dict_set in Hin. destruct Hin as [E | Hin].
  - injection E as -> ->. split; [reflexivity |].
    apply min_max_ordered; assumption.
  - exact (Hev _ _ Hin).
Qed.

Lemma In_combinations2 {A : Type} (l : list A) (a b : A) :
  In (a, b) (combinations2 l) -> In a l /\ In b l.
Proof.
  induction l as [| x xs IH]; simpl; [contradiction |].
  rewrite in_app_iff, in_map_iff.
  intros [[y [E Hy]] | H].
  - injection E as <- <-. auto.
  - destruct (IH H). auto.
Qed.

Lemma pairs_ok (n : nat)
    (step : event_dict -> Region * Region -> result event_dict)
    (regions : list Region) :
  (forall events events' exon_a exon_b,
     known exon_a -> known exon_b -> events_ok n events ->
     step events (exon_a, exon_b) = Ok events' -> events_ok n events') ->
  Forall known regions ->
  forall events events',
    events_ok n events ->
    foldM step events (combinations2 regions) = Ok events' ->
    events_ok n events'.
Proof.
  intros Hstep Hknown. apply foldM_invariant.
  intros s [exon_a exon_b] s' Hin Hs Hrun.
  apply In_combinations2 in Hin. destruct Hin as [Ha Hb].
  rewrite Forall_forall in Hknown.
  apply (Hstep s s' exon_a exon_b); auto.
Qed.

Lemma skipped_exon_events_ok (events : event_dict) :
  skipped_exon_events self = Ok events -> events_ok 3 events.
Proof.
  unfold skipped_exon_events.
  apply foldM_invariant; [| intros k v []].
  intros s exon1_name s' _ Hs H. unfold se_exon1 in H.
  inv_bind H. inv_bind H.
  refine (pairs_ok 3 (se_pair self exon1_name v) v0 _ _ s s' Hs H).
  - intros ev ev' a b Ha Hb Hev Hrun.
    exact (se_pair_ok exon1_name v ev ev' a b Ha Hb Hev Hrun).
  - eapply regions_of_known; eauto.
Qed.

Lemma mutually_exclusive_exon_events_ok (events : event_dict) :
  mutually_exclusive_exon_events self = Ok events -> events_ok 4 events.
Proof.
  unfold mutually_exclusive_exon_events.
  apply foldM_invariant; [| intros k v []].
  intros s exon1_name s' _ Hs H. unfold mxe_exon1 in H.
  inv_bind H. inv_bind H.
  refine (pairs_ok 4 (mxe_pair self exon1_name v) v0 _ _ s s' Hs H).
  - intros ev ev' a b Ha Hb Hev Hrun.
    exact (mxe_pair_ok exon1_name v ev ev' a b Ha Hb Hev Hrun).
  - eapply regions_of_known; eauto.
Qed.

Lemma event_dict_to_df_exons (events : event_dict)
    (exon_names junction_names : list string) (rows : list event_row)
    (row : event_row) :
  events_ok (List.length exon_names) events ->
  event_dict_to_df events exon_names junction_names = Ok rows ->
  In row rows -> ordered_pair (row_exons row).
Proof.
  intros Hev H Hrow. unfold event_dict_to_df in H.
  destruct (mapM_In _ _ _ H row Hrow) as [[k v] [Hin Hk]].
  destruct (Hev _ _ Hin) as [Hlen Hord].
  inv_bind Hk. inv_bind Hk. injection Hk as <-. simpl.
  unfold set_cells in Hv. rewrite Hlen, Nat.eqb_refl in Hv.
  injection Hv as <-. exact Hord.
Qed.

Lemma detector_rows_ordered (rows : list event_row) (row : event_row) :
  skipped_exon self = Ok rows \/ mutually_exclusive_exon self = Ok rows ->
  In row rows -> ordered_pair (row_exons row).
Proof.
  intros [H | H] Hrow.
  - unfold skipped_exon in H. inv_bind H.
    apply skipped_exon_events_ok in Hv.
    exact (event_dict_to_df_exons v ["exon1"; "exon2"; "exon3"] _
             rows row Hv H Hrow).
  - unfold mutually_exclusive_exon in H. inv_bind H.
    apply mutually_exclusive_exon_events_ok in Hv.
    exact (event_dict_to_df_exons v ["exon1"; "exon2"; "exon3"; "exon4"] _
             rows row Hv H Hrow).
Qed.

End Detectors.

(** C3 (amended). In every row either detector emits, the [exon2]
    column starts no later than the [exon3] column.  The detectors place
    [exon1] and [exon4] by graph topology alone and never compare their
    start coordinates with the other columns. *)
Theorem exon2_starts_no_later_than_exon3
    (locate : string -> option location) (triples : list triple)
    (self : JunctionAggregator) (rows : list event_row) (row : event_row) :
  JunctionAggregator_init locate triples = Ok self ->
  skipped_exon self = Ok rows \/ mutually_exclusive_exon self = Ok rows ->
  In row rows ->
  exists exon2 exon3,
    nth_error (row_exons row) 1 = Some (name exon2) /\
    nth_error (row_exons row) 2 = Some (name exon3) /\
    Region_init locate (name exon2) = Ok exon2 /\
    Region_init locate (name exon3) = Ok exon3 /\
    (start exon2 <= start exon3)%Z.
Proof.
  intros Hinit Hrun Hrow.
  destruct (detector_rows_ordered locate triples self Hinit rows row
              Hrun Hrow)
    as [exon2 [exon3 [H2 [H3 [K2 [K3 [Hle _]]]]]]].
  exists exon2, exon3. auto.
Qed.

Lemma exon2_starts_no_later_than_exon3_witness :
  exists self row exon2 exon3,
    JunctionAggregator_init parse_location scenario_triples = Ok self /\
    skipped_exon self = Ok [row] /\
    nth_error (row_exons row) 1 = Some (name exon2) /\
    nth_error (row_exons row) 2 = Some (name exon3) /\
    Region_init parse_location (name exon2) = Ok exon2 /\
    Region_init parse_location (name exon3) = Ok exon3 /\
    (start exon2 <= start exon3)%Z.
Proof.
  pose (self :=
          match JunctionAggregator_init parse_location scenario_triples with
          | Ok a => a
          | Raise _ => mkAggregator [] connect [] [] [] []
          end).
  pose (row := mkRow [exonA; exonB; exonC]
                     [junctionAB; junctionBC; junctionAC]
                     (String.concat "@" [exonA; exonB; exonC])).
  assert (Hinit : JunctionAggregator_init parse_location scenario_triples
                  = Ok self) by (vm_compute; reflexivity).
  assert (Hrun : skipped_exon self = Ok [row]) by (vm_compute; reflexivity).
  exists self, row.
  destruct (exon2_starts_no_later_than_exon3 parse_location
              scenario_triples _ _ _ Hinit (or_introl Hrun)
              (or_introl eq_refl))
    as [exon2 [exon3 H]].
  exists exon2, exon3. split; [exact Hinit |]. split; [exact Hrun |].
  exact H.
Defined.

(** The order claimed for every exon column fails for [exon1]: a first
    exon lying after the other two is reported all the same. *)
Lemma exon1_may_start_after_exon2 :
  exists row exon1 exon2,
    (self <- JunctionAggregator_init parse_location late_exon1_triples ;;
     skipped_exon self) = Ok [row] /\
    nth_error (row_exons row) 0 = Some (name exon1) /\
    nth_error (row_exons row) 1 = Some (name exon2) /\
    Region_init parse_location (name exon1) = Ok exon1 /\
    Region_init parse_location (name exon2) = Ok exon2 /\
    ~ (start exon1 < start exon2)%Z.
Proof.
  exists (mkRow [exonD; exonB; exonC]
                [junctionAB; junctionBC; junctionAC]
                (String.concat "@" [exonD; exonB; exonC])).
  exists (mkRegion exonD "chr1" 700 800 "+").
  exists (mkRegion exonB "chr1" 300 400 "+").
  repeat split; try (vm_compute; reflexivity).
  simpl. lia.
Qed.

(** C4 (amended). In every row either detector emits, the [exon2] and
    [exon3] columns do not overlap whenever their start coordinates
    differ.  No pair involving [exon1] or [exon4] is tested for
    overlap. *)
Theorem exon2_exon3_disjoint_when_starts_differ
    (locate : string -> option location) (triples : list triple)
    (self : JunctionAggregator) (rows : list event_row) (row : event_row) :
  JunctionAggregator_init locate triples = Ok self ->
  skipped_exon self = Ok rows \/ mutually_exclusive_exon self = Ok rows ->
  In row rows ->
  exists exon2 exon3,
    nth_error (row_exons row) 1 = Some (name exon2) /\
    nth_error (row_exons row) 2 = Some (name exon3) /\
    Region_init locate (name exon2) = Ok exon2 /\
    Region_init locate (name exon3) = Ok exon3 /\
    (start exon2 <> start exon3 -> overlaps exon2 exon3 = false).
Proof.
  intros Hinit Hrun Hrow.
  destruct (detector_rows_ordered locate triples self Hinit rows row
              Hrun Hrow)
    as [exon2 [exon3 [H2 [H3 [K2 [K3 [_ Hdis]]]]]]].
  exists exon2, exon3. auto.
Qed.

Lemma exon2_exon3_disjoint_witness :
  exists self row exon2 exon3,
    JunctionAggregator_init parse_location scenario_triples = Ok self /\
    skipped_exon self = Ok [row] /\
    nth_error (row_exons row) 1 = Some (name exon2) /\
    nth_error (row_exons row) 2 = Some (name exon3) /\
    Region_init parse_location (name exon2) = Ok exon2 /\
    Region_init parse_location (name exon3) = Ok exon3 /\
    start exon2 <> start exon3 /\
    overlaps exon2 exon3 = false.
Proof.
  pose (self :=
          match JunctionAggregator_init parse_location scenario_triples with
          | Ok a => a
          | Raise _ => mkAggregator [] connect [] [] [] []
          end).
  pose (row := mkRow [exonA; exonB; exonC]
                     [junctionAB; junctionBC; junctionAC]
                     (String.concat "@" [exonA; exonB; exonC])).
  assert (Hinit : JunctionAggregator_init parse_location scenario_triples
                  = Ok self) by (vm_compute; reflexivity).
  assert (Hrun : skipped_exon self = Ok [row]) by (vm_compute; reflexivity).
  exists self, row.
  destruct (exon2_exon3_disjoint_when_starts_differ parse_location
              scenario_triples _ _ _ Hinit (or_introl Hrun)
              (or_introl eq_refl))
    as [exon2 [exon3 [H2 [H3 [K2 [K3 Hdis]]]]]].
  exists exon2, exon3.
  assert (Hne : start exon2 <> start exon3).
  { simpl in H2, H3. injection H2 as H2. injection H3 as H3.
    unfold Region_init in K2, K3. rewrite <- H2 in K2. rewrite <- H3 in K3.
    vm_compute in K2, K3.
    injection K2 as <-. injection K3 as <-. simpl. discriminate. }
  repeat split; auto.
Defined.

(** Disjointness claimed for every pair fails for [exon1]: a first exon
    overlapping the second is reported all the same. *)
Lemma exon1_may_overlap_exon2 :
  exists row exon1 exon2,
    (self <- JunctionAggregator_init parse_location
               overlapping_exon1_triples ;;
     skipped_exon self) = Ok [row] /\
    nth_error (row_exons row) 0 = Some (name exon1) /\
    nth_error (row_exons row) 1 = Some (name exon2) /\
    Region_init parse_location (name exon1) = Ok exon1 /\
    Region_init parse_location (name exon2) = Ok exon2 /\
    overlaps exon1 exon2 = true.
Proof.
  exists (mkRow ["exon:chr1:250-350:+"; exonB; exonC]
                [junctionAB; junctionBC; junctionAC]
                (String.concat "@" ["exon:chr1:250-350:+"; exonB; exonC])).
  exists (mkRegion "exon:chr1:250-350:+" "chr1" 250 350 "+").
  exists (mkRegion exonB "chr1" 300 400 "+").
  repeat split; vm_compute; reflexivity.
Qed.

(** ** Failure after detection *)

(** C5. With two junctions between [exonB] and [exonC] the table is
    well formed and construction succeeds; the detection loop completes
    with one event carrying four junctions; the run then raises while
    the event table is filled, instead of returning it. *)
Theorem skipped_exon_raises_after_detection :
  exists self events,
    JunctionAggregator_init parse_location two_junction_triples = Ok self /\
    skipped_exon_events self = Ok events /\
    map (fun kv => List.length (snd kv)) events = [4] /\
    skipped_exon self = Raise ValueError.
Proof.
  pose (self :=
          match JunctionAggregator_init parse_location
                  two_junction_triples with
          | Ok a => a
          | Raise _ => mkAggregator [] connect [] [] [] []
          end).
  exists self. eexists.
  split; [vm_compute; reflexivity |].
  split; [vm_compute; reflexivity |].
  split; vm_compute; reflexivity.
Qed.

(** ** Pairs without a common exon4 *)

(** C9. When the two-hop-upstream candidates of [exon2] and [exon3]
    have no exon in common, the loop body of [mutually_exclusive_exon]
    returns normally and leaves the events as they were. *)
Theorem mxe_pair_without_common_exon4_is_skipped
    (self : JunctionAggregator) (exon1_name : string) (exon1_i : nat)
    (events : event_dict) (exon_a exon_b : Region) (exon2_i exon3_i : nat) :
  index (items self) (name (min_by_start exon_a exon_b)) = Ok exon2_i ->
  index (items self) (name (max_by_start exon_a exon_b)) = Ok exon3_i ->
  common_exon4 self exon2_i exon3_i = [] ->
  mxe_pair self exon1_name exon1_i events (exon_a, exon_b) = Ok events.
Proof.
  intros H2 H3 Hempty. unfold mxe_pair.
  destruct (negb (overlaps exon_a exon_b)); [| reflexivity].
  rewrite H2, H3. simpl.
  unfold mxe_try. rewrite Hempty. reflexivity.
Qed.

Lemma mxe_pair_without_common_exon4_witness :
  exists self,
    JunctionAggregator_init parse_location no_common_exon4_triples
      = Ok self /\
    common_exon4 self 1 2 = [] /\
    mxe_pair self exonA 0 []
             (mkRegion exonB "chr1" 300 400 "+",
              mkRegion exonC "chr1" 500 600 "+") = Ok [] /\
    mutually_exclusive_exon self = Ok [].
Proof.
  pose (self :=
          match JunctionAggregator_init parse_location
                  no_common_exon4_triples with
          | Ok a => a
          | Raise _ => mkAggregator [] connect [] [] [] []
          end).
  exists self.
  split; [vm_compute; reflexivity |].
  split; [vm_compute; reflexivity |].
  split; [| vm_compute; reflexivity].
  apply (mxe_pair_without_common_exon4_is_skipped self exonA 0 []
           (mkRegion exonB "chr1" 300 400 "+")
           (mkRegion exonC "chr1" 500 600 "+") 1 2);
    vm_compute; reflexivity.
Defined.

(** ** Consolidation *)



Lemma In_labels (df : list junction_event) (i : nat) :
  In i (labels df) <-> i < List.length df.
Proof. unfold labels. rewrite in_seq. lia. Qed.


(** *** The table of isoforms *)

Section IsoformsFrame.

Variable features : string -> Feature.

Lemma df_isoforms_labels (df : list junction_event) (i : nat)
    (cells : option (list Feature) * option (list Feature)) :
  In (i, cells) (isoforms_frame features df) ->
  i < List.length df /\ cells <> (None, None).
Proof.
  unfold isoforms_frame, dropna. rewrite filter_In, in_map_iff.
  intros [[[j row] [E Hin]] Hkeep]. simpl in E. injection E as <- _.
  split.
  - apply in_combine_l in Hin. apply In_labels. exact Hin.
  - intro Hc. rewrite Hc in Hkeep. discriminate Hkeep.
Qed.

Lemma df_tags_rows (df_isoforms : frame (list Feature)) :
  (forall row, In row df_isoforms -> snd row <> (None, None)) ->
  map fst (df_tags_of df_isoforms) = map fst df_isoforms.
Proof.
  unfold df_tags_of, dropna, applymap.
  induction df_isoforms as [| [i [c1 c2]] rest IH]; intro Hall;
    [reflexivity |].
  assert (Hrow : (c1, c2) <> (None, None))
    by (apply (Hall (i, (c1, c2))); simpl; auto).
  assert (Hrest : forall row, In row rest -> snd row <> (None, None))
    by (intros row Hin; apply Hall; simpl; auto).
  specialize (IH Hrest). simpl in *.
  destruct c1, c2; simpl; try (f_equal; exact IH).
  contradiction Hrow. reflexivity.
Qed.


Lemma filter_map_swap {A B : Type} (p : B -> bool) (f : A -> B)
    (l : list A) :
  filter p (map f l) = map f (filter (fun x => p (f x)) l).
Proof.
  induction l as [| x xs IH]; simpl; [reflexivity |].
  destruct (p (f x)); simpl; rewrite IH; reflexivity.
Qed.

Lemma df_isoforms_rows (df : list junction_event) :
  map fst (isoforms_frame features df)
  = map fst (filter (fun ir => has_transcripts (snd ir))
                    (combine (labels df) df)).
Proof.
  unfold isoforms_frame, dropna. rewrite filter_map_swap, map_map. simpl.
  f_equal. apply filter_ext. intros [i row]. unfold has_transcripts. simpl.
  destruct (isoform1_transcripts row), (isoform2_transcripts row);
    reflexivity.
Qed.

Lemma truth_flags (tag : string) (t : list string) :
  truth (Flags (map (fun y => startswith y tag) t))
  = match t with [] => false | _ :: _ => true end.
Proof. destruct t; reflexivity. Qed.

(** Whatever the tag, [any(axis=1)] marks exactly the rows that carry
    some tag. *)
Lemma df_this_tag_rows (tag : string) (df : list junction_event) :
  df_this_tag_of tag (df_tags_of (isoforms_frame features df))
  = map (fun ir => (fst ir, has_tags features (snd ir)))
        (filter (fun ir => has_transcripts (snd ir))
                (combine (labels df) df)).
Proof.
  unfold isoforms_frame, df_tags_of, df_this_tag_of, dropna, applymap.
  generalize (combine (labels df) df) as l.
  induction l as [| [i [e l1 l2]] rest IH]; [reflexivity |].
  destruct l1 as [| a1 l1]; destruct l2 as [| a2 l2];
    cbn [map filter fst snd isoform1_transcripts isoform2_transcripts
         has_transcripts];
    [exact IH | | |];
    rewrite IH; unfold has_tags, row_tags;
    cbn [isoform1_transcripts isoform2_transcripts];
    rewrite ?truth_flags; f_equal; f_equal;
    change (List.concat (get_attribute (map features [])))
      with (@nil string);
    repeat match goal with
           | |- context [map features (?a :: ?l)] =>
               change (map features (a :: l))
                 with (features a :: map features l)
           end;
    repeat match goal with
           | |- context [List.concat (get_attribute (features ?a :: ?l))] =>
               destruct (List.concat (get_attribute (features a :: l)))
           end;
    reflexivity.
Qed.

Lemma filter_none {A : Type} (p : A -> bool) (l : list A) (ls : list nat) :
  (forall y, In y l -> p y = false) ->
  filter (fun ix : nat * A => p (snd ix)) (combine ls l) = [].
Proof.
  revert ls. induction l as [| y l IH]; intros ls Hall.
  - destruct ls; reflexivity.
  - destruct ls as [| n ls]; [reflexivity |]. simpl.
    rewrite (Hall y (or_introl eq_refl)). apply IH.
    intros z Hz. apply Hall. simpl. auto.
Qed.

Lemma filter_single {A : Type} (p : A -> bool) (l : list A) :
  forall (i : nat) (x : A) (first : nat),
    nth_error l i = Some x -> p x = true ->
    (forall j y, nth_error l j = Some y -> j <> i -> p y = false) ->
    filter (fun ix : nat * A => p (snd ix))
           (combine (seq first (List.length l)) l)
    = [(first + i, x)].
Proof.
  induction l as [| y l IH]; intros i x first Hnth Hp Hothers.
  - destruct i; discriminate Hnth.
  - destruct i as [| i]; simpl in *.
    + injection Hnth as ->. rewrite Hp, Nat.add_0_r. f_equal.
      apply filter_none. intros z Hz.
      apply In_nth_error in Hz. destruct Hz as [j Hj].
      apply (Hothers (S j) z); [exact Hj | discriminate].
    + rewrite (Hothers 0 y eq_refl) by discriminate.
      rewrite (IH i x (S first) Hnth Hp).
      * f_equal. f_equal. lia.
      * intros j z Hj Hne. apply (Hothers (S j) z); [exact Hj | lia].
Qed.

End IsoformsFrame.

(** *** The lookups of the transcript ids *)

Section Lookups.

Variable db : string -> option Feature.

Lemma known_spec (df : list junction_event) :
  known db df = true <->
  forall row y,
    In row df ->
    In y (isoform1_transcripts row ++ isoform2_transcripts row) ->
    db y <> None.
Proof.
  unfold known. rewrite forallb_forall. split.
  - intros H row y Hrow Hy. specialize (H row Hrow).
    rewrite forallb_forall in H. specialize (H y Hy).
    destruct (db y); [discriminate | discriminate H].
  - intros H row Hrow. apply forallb_forall. intros y Hy.
    specialize (H row y Hrow Hy). destruct (db y); [reflexivity |].
    contradiction H. reflexivity.
Qed.

Lemma db_getitem_known (x : list string) :
  (forall y, In y x -> db y <> None) ->
  mapM (db_getitem db) x = Ok (map (feature_of db) x).
Proof.
  induction x as [| y x IH]; simpl; intro H; [reflexivity |].
  unfold db_getitem at 1, feature_of at 1.
  destruct (db y) eqn:E; [| contradiction (H y); auto].
  simpl. rewrite IH by (intros z Hz; apply H; auto). reflexivity.
Qed.

Lemma isoforms_cell_known (x : list string) :
  (forall y, In y x -> db y <> None) ->
  isoforms_cell db x
  = Ok match x with
       | [] => None
       | _ => Some (map (feature_of db) x)
       end.
Proof.
  intro H. unfold isoforms_cell. destruct x as [| y x]; [reflexivity |].
  rewrite (db_getitem_known _ H). reflexivity.
Qed.



Lemma mapM_cells_known (column : junction_event -> list string)
    (df : list junction_event) :
  (forall row y, In row df -> In y (column row) -> db y <> None) ->
  mapM (isoforms_cell db) (map column df)
  = Ok (map (fun row => match column row with
                        | [] => None
                        | _ => Some (map (feature_of db) (column row))
                        end) df).
Proof.
  induction df as [| row df IH]; simpl; intro H; [reflexivity |].
  rewrite isoforms_cell_known by (intros y Hy; apply (H row); auto).
  simpl. rewrite IH by (intros r y Hr; apply H; auto). reflexivity.
Qed.

Lemma combine_columns {A B C : Type} (f g : A -> B) (ls : list C)
    (l : list A) :
  combine ls (combine (map f l) (map g l))
  = map (fun ir => (fst ir, (f (snd ir), g (snd ir)))) (combine ls l).
Proof.
  revert ls. induction l as [| x l IH]; intros [| i ls]; simpl;
    try reflexivity.
  rewrite IH. reflexivity.
Qed.

(** When every id is held by the database, [df_isoforms] is the table
    of their features. *)
Lemma df_isoforms_known (df : list junction_event) :
  known db df = true ->
  df_isoforms_of db df = Ok (isoforms_frame (feature_of db) df).
Proof.
  intro Hk. rewrite known_spec in Hk. unfold df_isoforms_of.
  rewrite (mapM_cells_known isoform1_transcripts)
    by (intros row y Hrow Hy; apply (Hk row); auto using in_or_app).
  simpl.
  rewrite (mapM_cells_known isoform2_transcripts)
    by (intros row y Hrow Hy; apply (Hk row); auto using in_or_app).
  simpl. rewrite combine_columns. reflexivity.
Qed.




(** C7 (amended). In a group of at least two rows of which exactly one
    has transcripts, all of them held by the annotation database,
    [consolidate_junction_events] returns that row's event id with the
    reason ['one event with gencode transcripts'], whatever the random
    draw. *)
Theorem single_annotated_row_is_chosen
    (df : list junction_event) (draw i : nat) (row : junction_event) :
  2 <= List.length df ->
  nth_error df i = Some row ->
  has_transcripts row = true ->
  (forall y, In y (isoform1_transcripts row ++ isoform2_transcripts row) ->
             db y <> None) ->
  (forall j row', nth_error df j = Some row' -> j <> i ->
                  has_transcripts row' = false) ->
  consolidate_junction_events db df draw
  = Ok ("one event with gencode transcripts", EventId (event_id row)).
Proof.
  intros Hlen Hnth Hrow Hids Hothers. unfold consolidate_junction_events.
  destruct (Nat.eqb_spec (List.length df) 1) as [E | _]; [lia |].
  assert (Hk : known db df = true).
  { apply known_spec. intros row' y Hin Hy.
    apply In_nth_error in Hin. destruct Hin as [j Hj].
    destruct (Nat.eq_dec j i) as [-> | Hne].
    - rewrite Hnth in Hj. injection Hj as <-. apply Hids. exact Hy.
    - pose proof (Hothers j row' Hj Hne) as Hnone.
      unfold has_transcripts in Hnone.
      destruct (isoform1_transcripts row'), (isoform2_transcripts row');
        try discriminate Hnone.
      contradiction Hy. }
  rewrite (df_isoforms_known df Hk). cbn [bind].
  pose proof (df_isoforms_rows (feature_of db) df) as Hrows.
  unfold labels in Hrows.
  rewrite (filter_single has_transcripts df i row 0 Hnth Hrow Hothers)
    in Hrows.
  destruct (isoforms_frame (feature_of db) df) as [| [j c] [| second more]];
    try discriminate Hrows.
  simpl in Hrows. injection Hrows as ->.
  unfold loc_event. rewrite Hnth. reflexivity.
Qed.

Lemma consolidate_two_annotated (a b : junction_event) (draw : nat) :
  known db [a; b] = true ->
  has_transcripts a = true -> has_transcripts b = true ->
  consolidate_junction_events db [a; b] draw
  = best_tag_loop [a; b]
      (df_tags_of (isoforms_frame (feature_of db) [a; b])) draw BEST_TAGS.
Proof.
  intros Hk Ha Hb. unfold consolidate_junction_events.
  change (Nat.eqb (List.length [a; b]) 1) with false. cbv iota.
  rewrite (df_isoforms_known [a; b] Hk). cbn [bind].
  pose proof (df_isoforms_rows (feature_of db) [a; b]) as Hrows.
  pose proof (df_isoforms_labels (feature_of db) [a; b]) as Hlab.
  unfold labels in Hrows. cbn [List.length seq combine filter snd] in Hrows.
  rewrite Ha, Hb in Hrows. cbn [map fst] in Hrows.
  destruct (isoforms_frame (feature_of db) [a; b]) as [| x [| y more]]
    eqn:Hiso; try discriminate Hrows.
  assert (Htags : map fst (df_tags_of (x :: y :: more))
                  = map fst (x :: y :: more)).
  { apply df_tags_rows. intros [j c] Hin. simpl.
    exact (proj2 (Hlab j c Hin)). }
  destruct x as [i c].
  destruct (df_tags_of ((i, c) :: y :: more)) as [| t ts];
    [discriminate Htags | reflexivity].
Qed.

(** The two-row case of the priority rule holds: in a group of two rows
    that both have transcripts held by the database, one carrying a tag
    with the top-priority prefix and the other carrying no tag at all,
    the tagged row's event id is returned with the reason
    ['best,appris_principal'], whatever the order of the rows and the
    random draw. *)
Lemma top_tag_beats_untagged_row
    (tagged untagged : junction_event) (draw : nat) :
  known db [tagged; untagged] = true ->
  has_transcripts tagged = true ->
  has_transcripts untagged = true ->
  existsb (fun y => startswith y "appris_principal")
          (row_tags (feature_of db) tagged) = true ->
  row_tags (feature_of db) untagged = [] ->
  consolidate_junction_events db [tagged; untagged] draw
    = Ok ("best,appris_principal", EventId (event_id tagged)) /\
  consolidate_junction_events db [untagged; tagged] draw
    = Ok ("best,appris_principal", EventId (event_id tagged)).
Proof.
  intros Hk Ha Hb Htop Hnone.
  assert (Hk' : known db [untagged; tagged] = true).
  { unfold known in *. simpl in *.
    rewrite !andb_true_r in *. apply andb_prop in Hk.
    destruct Hk as [H1 H2]. rewrite H1, H2. reflexivity. }
  assert (Hta : has_tags (feature_of db) tagged = true).
  { unfold has_tags.
    destruct (row_tags (feature_of db) tagged); [discriminate Htop |].
    reflexivity. }
  assert (Htb : has_tags (feature_of db) untagged = false).
  { unfold has_tags. rewrite Hnone. reflexivity. }
  split; rewrite consolidate_two_annotated by assumption;
    unfold BEST_TAGS; cbn [best_tag_loop];
    rewrite df_this_tag_rows;
    unfold labels; cbn [List.length seq combine filter snd];
    rewrite Ha, Hb; cbn [map fst snd]; rewrite Hta, Htb;
    cbn [existsb filter snd orb map fst];
    unfold random_choice; cbn [List.length]; rewrite Nat.mod_1_r;
    reflexivity.
Qed.

End Lookups.



Lemma single_annotated_row_witness :
  consolidate_junction_events example_db one_annotated_group 7
  = Ok ("one event with gencode transcripts", EventId "event1").
Proof.
  apply (single_annotated_row_is_chosen example_db one_annotated_group
           7 0 (mkEvent "event1" ["T1"] [])).
  - simpl. lia.
  - reflexivity.
  - reflexivity.
  - intros y [<- | []]. discriminate.
  - intros [| [| j]] row' Hj Hne.
    + contradiction Hne. reflexivity.
    + simpl in Hj. injection Hj as <-. reflexivity.
    + simpl in Hj. destruct j; discriminate Hj.
Defined.

(** The reason reported for the single annotated row is not the one
    claimed, and a group of one row is answered ['only one'] even when
    that row has transcripts. *)
Lemma annotated_reason_is_not_the_claimed_one :
  (exists reason,
     consolidate_junction_events example_db one_annotated_group 0
     = Ok (reason, EventId "event1") /\
     reason <> "one event with annotated transcripts") /\
  (exists reason,
     consolidate_junction_events example_db [mkEvent "event1" ["T1"] []] 0
     = Ok (reason, EventId "event1") /\
     reason <> "one event with annotated transcripts").
Proof.
  split.
  - exists "one event with gencode transcripts".
    split; [vm_compute; reflexivity | discriminate].
  - exists "only one". split; [vm_compute; reflexivity | discriminate].
Qed.

(** C8. The priority walk does not look at which tag a row carries.  In
    the group of a row tagged [basic] only and a row tagged [CCDS] and
    [basic], both with transcripts the database holds, no tag starts
    with [appris_principal] or [appris_candidate], so the first tag of
    the priority list with a matching row is [CCDS] and the second row
    is the one to return, with the reason ['best,CCDS'].  The code
    returns the reason ['best,appris_principal'], and the first row or
    the second, as the draw falls. *)
Theorem priority_walk_stops_at_first_tag :
  known example_db basic_and_ccds_group = true /\
  row_tags (feature_of example_db) (mkEvent "event1" ["T4"] [])
  = ["basic"] /\
  row_tags (feature_of example_db) (mkEvent "event2" [] ["T2"])
  = ["CCDS"; "basic"] /\
  consolidate_junction_events example_db basic_and_ccds_group 0
  = Ok ("best,appris_principal", EventId "event1") /\
  consolidate_junction_events example_db basic_and_ccds_group 1
  = Ok ("best,appris_principal", EventId "event2").
Proof. repeat split; vm_compute; reflexivity. Qed.

(** ** The detection loops run to completion *)

Lemma index_In_ok (items : list string) (x : string) :
  In x items -> exists i, index items x = Ok i.
Proof.
  induction items as [| y ys IH]; simpl; [contradiction |].
  intros [-> | Hin].
  - rewrite String.eqb_refl. eauto.
  - destruct (String.eqb y x); [eauto |].
    destruct (IH Hin) as [i Hi]. rewrite Hi. simpl. eauto.
Qed.

Lemma index_bound (items : list string) (x : string) :
  forall i, index items x = Ok i -> i < List.length items.
Proof.
  induction items as [| y ys IH]; simpl; intros i H; [discriminate H |].
  destruct (String.eqb y x).
  - injection H as <-. lia.
  - inv_bind H. injection H as <-. apply IH in Hv. lia.
Qed.

Lemma item_ok (items : list string) (i : nat) :
  i < List.length items -> exists s, item items i = Ok s /\ In s items.
Proof.
  intro Hlt. unfold item.
  destruct (nth_error items i) as [s |] eqn:Hnth.
  - exists s. split; [reflexivity |]. eapply nth_error_In; eauto.
  - apply nth_error_None in Hnth. lia.
Qed.

Lemma mapM_ok {A B : Type} (f : A -> result B) (Q : B -> Prop)
    (l : list A) :
  (forall x, In x l -> exists y, f x = Ok y /\ Q y) ->
  exists l', mapM f l = Ok l' /\ Forall Q l'.
Proof.
  induction l as [| x xs IH]; simpl; intro Hall.
  - exists []. auto.
  - destruct (Hall x (or_introl eq_refl)) as [y [Hy Qy]].
    destruct IH as [ys [Hys Qys]]; [intros z Hz; apply Hall; auto |].
    exists (y :: ys). rewrite Hy. simpl. rewrite Hys. simpl. auto.
Qed.

Lemma foldM_ok {A S : Type} (f : S -> A -> result S) (l : list A) :
  (forall s x, In x l -> exists s', f s x = Ok s') ->
  forall s, exists s', foldM f s l = Ok s'.
Proof.
  induction l as [| x xs IH]; simpl; intros Hstep s.
  - eauto.
  - destruct (Hstep s x (or_introl eq_refl)) as [s1 H1]. rewrite H1. simpl.
    apply IH. intros s0 y Hy. apply Hstep. auto.
Qed.

Lemma In_select_dst (t : table) (a x : nat) :
  In x (select_dst t a) -> In (a, x) t.
Proof.
  unfold select_dst. rewrite in_map_iff.
  intros [[a' x'] [<- Hin]]. apply filter_In in Hin.
  destruct Hin as [Hin Heq]. simpl in *. apply Nat.eqb_eq in Heq.
  subst. exact Hin.
Qed.

Lemma In_select_src (t : table) (b x : nat) :
  In x (select_src t b) -> In (x, b) t.
Proof.
  unfold select_src. rewrite in_map_iff.
  intros [[x' b'] [<- Hin]]. apply filter_In in Hin.
  destruct Hin as [Hin Heq]. simpl in *. apply Nat.eqb_eq in Heq.
  subst. exact Hin.
Qed.

Lemma In_traverse (t : table) (q : list nat) (x : nat) :
  In x (traverse t q) -> exists a, In (a, x) t.
Proof.
  unfold traverse. rewrite in_map_iff.
  intros [[a x'] [<- Hin]]. apply filter_In in Hin.
  exists a. exact (proj1 Hin).
Qed.

Lemma In_distinct (l : list nat) (x : nat) : In x (distinct l) -> In x l.
Proof.
  induction l as [| y ys IH]; simpl; [auto |].
  destruct (mem y ys); simpl; intuition.
Qed.

Lemma In_intersection (q1 q2 : list nat) (x : nat) :
  In x (intersection q1 q2) -> In x q1.
Proof.
  unfold intersection. intro H. apply In_distinct in H.
  apply filter_In in H. exact (proj1 H).
Qed.

Lemma In_set_of (l : list nat) (x : nat) : In x (set_of l) -> In x l.
Proof.
  unfold set_of. intro H. apply in_rev in H. apply In_distinct in H.
  apply in_rev. exact H.
Qed.

Section Completion.

Variable locate : string -> option location.
Variable triples : list triple.
Variable self : JunctionAggregator.
Hypothesis Hinit : JunctionAggregator_init locate triples = Ok self.

Local Abbreviation n := (List.length (items self)).
Local Abbreviation up := (upstream (graph self)).
Local Abbreviation down := (downstream (graph self)).

Lemma store_row_below (g g' : Graph) (row : triple) :
  nodes_below n g -> store_row (items self) g row = Ok g' ->
  nodes_below n g'.
Proof.
  intros Hg H. unfold store_row in H.
  inv_bind H. inv_bind H. inv_bind H.
  apply index_bound in Hv, Hv0.
  apply store_spec in Hv1. destruct Hv1 as [_ [_ [_ [Hu1 Hd1]]]].
  apply store_spec in H. destruct H as [_ [_ [_ [Hu2 Hd2]]]].
  intros a b. rewrite Hu2, Hd2, Hu1, Hd1.
  intros [[[_ E] | [[_ E] | Hin]] | [[_ E] | [[_ E] | Hin]]];
    try (injection E as -> ->; lia); apply Hg; auto.
Qed.

Lemma graph_below : nodes_below n (graph self).
Proof.
  pose proof (init_fields _ _ _ Hinit) as [_ [_ [_ [_ [_ Hg]]]]].
  revert Hg. apply foldM_invariant.
  - intros g row g' _. apply store_row_below.
  - intros a b [[] | []].
Qed.

Lemma up_below (a b : nat) : In (a, b) up -> a < n /\ b < n.
Proof. intro H. apply graph_below. auto. Qed.

Lemma down_below (a b : nat) : In (a, b) down -> a < n /\ b < n.
Proof. intro H. apply graph_below. auto. Qed.

Lemma traverse_below (t : table) (q : list nat) :
  t = up \/ t = down -> all_below n (traverse t q).
Proof.
  intros Ht x Hx. apply In_traverse in Hx. destruct Hx as [a Ha].
  destruct Ht as [-> | ->];
    [apply up_below in Ha | apply down_below in Ha]; lia.
Qed.

Lemma select_dst_below (t : table) (a : nat) :
  t = up \/ t = down -> all_below n (select_dst t a).
Proof.
  intros Ht x Hx. apply In_select_dst in Hx.
  destruct Ht as [-> | ->];
    [apply up_below in Hx | apply down_below in Hx]; lia.
Qed.

Lemma loc_ok (l : list string) (series : list (string * Region)) :
  mapM (fun s => r <- Region_init locate s ;; Ok (s, r)) l = Ok series ->
  forall s, In s l -> exists r, loc series s = Ok r /\ name r = s.
Proof.
  revert series. induction l as [| y ys IH]; simpl; intros series H s Hs;
    [contradiction |].
  inv_bind H. inv_bind H. injection H as <-.
  inv_bind Hv. injection Hv as <-. simpl.
  destruct (String.eqb_spec y s) as [-> | Hne].
  - exists v1. split; [reflexivity |]. eapply Region_init_name; eauto.
  - destruct Hs as [-> | Hs]; [contradiction Hne; reflexivity |].
    exact (IH _ Hv0 s Hs).
Qed.

Lemma regions_of_ok (q : list nat) :
  all_below n q ->
  exists regions,
    regions_of self q = Ok regions /\
    Forall (fun r => In (name r) (items self)) regions.
Proof.
  intro Hq. unfold regions_of.
  destruct (mapM_ok (item (items self)) (fun s => In s (items self)) q)
    as [names [Hnames Hin]].
  { intros i Hi. apply item_ok. apply Hq. exact Hi. }
  rewrite Hnames. simpl.
  pose proof (init_fields _ _ _ Hinit) as [_ [_ [_ [_ [Hseries _]]]]].
  apply mapM_ok. intros s Hs. rewrite Forall_forall in Hin.
  destruct (loc_ok _ _ Hseries s (Hin s Hs)) as [r [Hr Hname]].
  exists r. split; [exact Hr |]. rewrite Hname. auto.
Qed.

Lemma items_of_ok (q : list nat) :
  all_below n q -> exists names, mapM (item (items self)) q = Ok names.
Proof.
  intro Hq.
  destruct (mapM_ok (item (items self)) (fun _ => True) q) as [names [H _]].
  - intros i Hi. destruct (item_ok (items self) i (Hq i Hi)) as [s [Hs _]].
    eauto.
  - eauto.
Qed.

Lemma min_max_names (exon_a exon_b : Region) :
  In (name exon_a) (items self) -> In (name exon_b) (items self) ->
  In (name (min_by_start exon_a exon_b)) (items self) /\
  In (name (max_by_start exon_a exon_b)) (items self).
Proof.
  intros Ha Hb. unfold min_by_start, max_by_start.
  destruct (start exon_b <? start exon_a)%Z;
    destruct (start exon_a <? start exon_b)%Z; auto.
Qed.

Lemma se_pair_completes (exon1_name : string) (exon1_i : nat)
    (events : event_dict) (exon_a exon_b : Region) :
  In (name exon_a) (items self) -> In (name exon_b) (items self) ->
  exists events',
    se_pair self exon1_name exon1_i events (exon_a, exon_b) = Ok events'.
Proof.
  intros Ha Hb. unfold se_pair.
  destruct (negb (overlaps exon_a exon_b)); [| eauto].
  destruct (min_max_names exon_a exon_b Ha Hb) as [Hmin Hmax].
  destruct (index_In_ok _ _ Hmin) as [exon2_i H2].
  destruct (index_In_ok _ _ Hmax) as [exon3_i H3].
  rewrite H2, H3. simpl.
  destruct (items_of_ok
              (set_of (intersection
                         (select_dst (upstream (graph self)) exon2_i)
                         (select_src (upstream (graph self)) exon3_i))))
    as [names Hnames].
  { intros x Hx. apply In_set_of, In_intersection in Hx.
    revert x Hx. apply select_dst_below. auto. }
  rewrite Hnames. simpl.
  destruct (Nat.ltb 0 (List.length names)); [| eauto].
  destruct (items_of_ok
              (intersection (select_dst (upstream (graph self)) exon1_i)
                            (select_dst (downstream (graph self)) exon2_i) ++
               intersection (select_dst (upstream (graph self)) exon2_i)
                            (select_dst (downstream (graph self)) exon3_i) ++
               intersection (select_dst (upstream (graph self)) exon1_i)
                            (select_dst (downstream (graph self)) exon3_i)))
    as [junctions Hj].
  { intros x Hx. rewrite !in_app_iff in Hx.
    destruct Hx as [Hx | [Hx | Hx]]; apply In_intersection in Hx;
      revert x Hx; apply select_dst_below; auto. }
  rewrite Hj. simpl. eauto.
Qed.

Lemma mxe_pair_completes (exon1_name : string) (exon1_i : nat)
    (events : event_dict) (exon_a exon_b : Region) :
  In (name exon_a) (items self) -> In (name exon_b) (items self) ->
  exists events',
    mxe_pair self exon1_name exon1_i events (exon_a, exon_b) = Ok events'.
Proof.
  intros Ha Hb. unfold mxe_pair.
  destruct (negb (overlaps exon_a exon_b)); [| eauto].
  destruct (min_max_names exon_a exon_b Ha Hb) as [Hmin Hmax].
  destruct (index_In_ok _ _ Hmin) as [exon2_i H2].
  destruct (index_In_ok _ _ Hmax) as [exon3_i H3].
  rewrite H2, H3. simpl.
  destruct (mxe_try self exon1_name exon1_i events
              (min_by_start exon_a exon_b) (max_by_start exon_a exon_b)
              exon2_i exon3_i); eauto.
Qed.

Lemma pairs_complete
    (step : event_dict -> Region * Region -> result event_dict)
    (regions : list Region) :
  (forall events exon_a exon_b,
     In (name exon_a) (items self) -> In (name exon_b) (items self) ->
     exists events', step events (exon_a, exon_b) = Ok events') ->
  Forall (fun r => In (name r) (items self)) regions ->
  forall events,
    exists events', foldM step events (combinations2 regions) = Ok events'.
Proof.
  intros Hstep Hregions. apply foldM_ok.
  intros s [exon_a exon_b] Hin. apply In_combinations2 in Hin.
  rewrite Forall_forall in Hregions.
  apply Hstep; apply Hregions; tauto.
Qed.



End Completion.

(** ** The skipped-exon scenario, in any row order

    The table is any permutation of the six triples.  The items are then
    the six ids in some order, the graph tables are permutations of six
    known edges each, and every query of the detector is determined up
    to the order of its rows. *)

Lemma existsb_eqb_In (x : string) (l : list string) :
  existsb (String.eqb x) l = true <-> In x l.
Proof.
  rewrite existsb_exists. split.
  - intros [y [Hy E]]. apply String.eqb_eq in E. subst. exact Hy.
  - intro H. exists x. split; [exact H | apply String.eqb_refl].
Qed.

Lemma unique_from_spec (l seen : list string) :
  NoDup (unique_from seen l) /\
  forall x, In x (unique_from seen l) <-> In x l /\ ~ In x seen.
Proof.
  revert seen. induction l as [| y ys IH]; intro seen; simpl.
  - split; [constructor | tauto].
  - destruct (existsb (String.eqb y) seen) eqn:Hex.
    + apply existsb_eqb_In in Hex. destruct (IH seen) as [Hnd Hin].
      split; [exact Hnd |]. intro x. rewrite Hin.
      split; [tauto |]. intros [[-> | Hx] Hs]; [contradiction | tauto].
    + assert (Hy : ~ In y seen).
      { intro H. apply existsb_eqb_In in H. congruence. }
      destruct (IH (y :: seen)) as [Hnd Hin]. split.
      * constructor; [| exact Hnd]. rewrite Hin. simpl. tauto.
      * intro x. simpl. rewrite Hin. simpl.
        destruct (string_dec y x) as [-> | Hne]; tauto.
Qed.

Lemma unique_spec (l : list string) :
  NoDup (unique l) /\ forall x, In x (unique l) <-> In x l.
Proof.
  destruct (unique_from_spec l []) as [Hnd Hin]. split; [exact Hnd |].
  intro x. unfold unique. rewrite Hin. simpl. tauto.
Qed.

Lemma index_nth (items : list string) (x : string) :
  forall i, index items x = Ok i -> nth_error items i = Some x.
Proof.
  induction items as [| y ys IH]; simpl; intros i H; [discriminate H |].
  destruct (String.eqb_spec y x) as [-> | Hne].
  - injection H as <-. reflexivity.
  - inv_bind H. injection H as <-. simpl. auto.
Qed.

Lemma store_row_edges (items : list string) (g g' : Graph) (row : triple) :
  store_row items g row = Ok g' ->
  (forall p, In p (upstream g') <-> In p (upstream g) \/ row_up items row p) /\
  (forall p, In p (downstream g') <->
             In p (downstream g) \/ row_down items row p).
Proof.
  unfold store_row. intro H.
  inv_bind H. inv_bind H. inv_bind H.
  rename v into ji, v0 into ei, v1 into g1.
  apply store_spec in Hv1. destruct Hv1 as [Hdir [_ [_ [Hu1 Hd1]]]].
  apply store_spec in H. destruct H as [_ [_ [_ [Hu2 Hd2]]]].
  unfold row_up, row_down.
  destruct (opposite_direction _ Hdir) as [[Hd Ho] | [Hd Ho]];
    rewrite Ho in Hu2, Hd2; rewrite Hd in Hu1, Hd1; split; intros [a b];
    rewrite ?Hu2, ?Hd2, ?Hu1, ?Hd1, Hv, Hv0, Hd;
    (split;
     [ intros [[E1 E2] | [[E1 E2] | Hin]]; try discriminate E1;
       [right; exists ei, ji; intuition | left; exact Hin]
     | intros [Hin | [ei' [ji' [E1 [E2 [[E3 E4] | [E3 E4]]]]]]];
       try discriminate E3; [tauto |];
       injection E1 as <-; injection E2 as <-; tauto ]).
Qed.

Lemma store_rows_edges (items : list string) (T : list triple) :
  forall g g',
    foldM (store_row items) g T = Ok g' ->
    (forall p, In p (upstream g') <->
               In p (upstream g) \/ exists t, In t T /\ row_up items t p) /\
    (forall p, In p (downstream g') <->
               In p (downstream g) \/ exists t, In t T /\ row_down items t p).
Proof.
  induction T as [| row rows IH]; simpl; intros g g' H.
  - injection H as <-.
    split; intro p; (split; [auto | intros [Hin | [t [[] _]]]; exact Hin]).
  - inv_bind H. rename v into g1.
    apply store_row_edges in Hv. destruct Hv as [U1 D1].
    destruct (IH _ _ H) as [U2 D2].
    split; intro p; rewrite ?U2, ?D2, ?U1, ?D1; split.
    + intros [[Hin | Hrow] | [t [Ht Hrow]]]; eauto.
    + intros [Hin | [t [[<- | Ht] Hrow]]]; eauto.
    + intros [[Hin | Hrow] | [t [Ht Hrow]]]; eauto.
    + intros [Hin | [t [[<- | Ht] Hrow]]]; eauto.
Qed.

(** Every row adds one edge to each table, at its end. *)
Lemma store_row_tables (items : list string) (g g' : Graph) (row : triple) :
  store_row items g row = Ok g' ->
  upstream g' = upstream g ++ [up_edge items row] /\
  downstream g' = downstream g ++ [down_edge items row].
Proof.
  unfold store_row, up_edge, down_edge, position. intro H.
  inv_bind H. inv_bind H. inv_bind H. rewrite Hv, Hv0.
  pose proof (proj1 (store_spec _ _ _ _ _ Hv1)) as Hdir.
  destruct (opposite_direction _ Hdir) as [[Hd Ho] | [Hd Ho]];
    rewrite Ho in H; rewrite Hd in Hv1 |- *;
    unfold store in Hv1, H; simpl in Hv1, H;
    injection Hv1 as <-; injection H as <-; simpl; auto.
Qed.

Lemma store_rows_tables (items : list string) (T : list triple) :
  forall g g',
    foldM (store_row items) g T = Ok g' ->
    upstream g' = upstream g ++ map (up_edge items) T /\
    downstream g' = downstream g ++ map (down_edge items) T.
Proof.
  induction T as [| row rows IH]; simpl; intros g g' H.
  - injection H as <-. rewrite !app_nil_r. auto.
  - inv_bind H. apply store_row_tables in Hv. destruct Hv as [U1 D1].
    destruct (IH _ _ H) as [U2 D2].
    rewrite U2, D2, U1, D1, <- !app_assoc. auto.
Qed.

Lemma Permutation_filter' {A : Type} (p : A -> bool) (l l' : list A) :
  Permutation l l' -> Permutation (filter p l) (filter p l').
Proof.
  induction 1 as [| x l l' _ IH | x y l | l1 l2 l3 _ IH1 _ IH2]; simpl.
  - constructor.
  - destruct (p x); [constructor |]; exact IH.
  - destruct (p x), (p y); try apply Permutation_refl. apply perm_swap.
  - eapply Permutation_trans; eauto.
Qed.

Lemma mem_In (x : nat) (l : list nat) : mem x l = true <-> In x l.
Proof.
  unfold mem. rewrite existsb_exists. split.
  - intros [y [Hy E]]. apply Nat.eqb_eq in E. subst. exact Hy.
  - intro H. exists x. split; [exact H | apply Nat.eqb_refl].
Qed.

Lemma mem_ext (q q' : list nat) :
  (forall x, In x q <-> In x q') -> forall x, mem x q = mem x q'.
Proof.
  intros H x. destruct (mem x q) eqn:E1, (mem x q') eqn:E2; auto.
  - apply mem_In, H, mem_In in E1. congruence.
  - apply mem_In, H, mem_In in E2. congruence.
Qed.

Lemma traverse_perm (t t' : table) (q q' : list nat) :
  Permutation t t' -> (forall x, In x q <-> In x q') ->
  Permutation (traverse t q) (traverse t' q').
Proof.
  intros Ht Hq. unfold traverse. apply Permutation_map.
  rewrite (filter_ext _ (fun e => mem (fst e) q'))
    by (intro e; apply mem_ext; exact Hq).
  apply Permutation_filter'. exact Ht.
Qed.

Lemma In_select_dst_iff (t : table) (a x : nat) :
  In x (select_dst t a) <-> In (a, x) t.
Proof.
  split; [apply In_select_dst |]. intro H. unfold select_dst.
  apply in_map_iff. exists (a, x). split; [reflexivity |].
  apply filter_In. split; [exact H | apply Nat.eqb_refl].
Qed.

Lemma In_select_src_iff (t : table) (b x : nat) :
  In x (select_src t b) <-> In (x, b) t.
Proof.
  split; [apply In_select_src |]. intro H. unfold select_src.
  apply in_map_iff. exists (x, b). split; [reflexivity |].
  apply filter_In. split; [exact H | apply Nat.eqb_refl].
Qed.

Lemma NoDup_distinct (l : list nat) : NoDup (distinct l).
Proof.
  induction l as [| x xs IH]; simpl; [constructor |].
  destruct (mem x xs) eqn:E; [exact IH |].
  constructor; [| exact IH]. intro H. apply In_distinct in H.
  apply mem_In in H. congruence.
Qed.

Lemma In_distinct_iff (l : list nat) (x : nat) : In x (distinct l) <-> In x l.
Proof.
  split; [apply In_distinct |].
  induction l as [| y ys IH]; simpl; [auto |].
  destruct (mem y ys) eqn:E.
  - intros [<- | H]; [apply IH; apply mem_In; exact E | auto].
  - simpl. intros [<- | H]; auto.
Qed.

Lemma intersection_spec (q1 q2 : list nat) :
  NoDup (intersection q1 q2) /\
  forall x, In x (intersection q1 q2) <-> In x q1 /\ In x q2.
Proof.
  unfold intersection. split; [apply NoDup_distinct |].
  intro x. rewrite In_distinct_iff, filter_In, mem_In. tauto.
Qed.

Lemma NoDup_singleton {A : Type} (l : list A) (x : A) :
  NoDup l -> (forall y, In y l <-> y = x) -> l = [x].
Proof.
  intros Hnd Hin. destruct l as [| a [| b rest]].
  - exfalso. apply (proj2 (Hin x) eq_refl).
  - f_equal. apply Hin. simpl. auto.
  - exfalso. assert (a = x) by (apply Hin; simpl; auto).
    assert (b = x) by (apply Hin; simpl; auto). subst.
    inversion Hnd as [| ? ? Hn _]. apply Hn. simpl. auto.
Qed.

Lemma intersection_singleton (q1 q2 : list nat) (x : nat) :
  (forall y, In y q1 /\ In y q2 <-> y = x) -> intersection q1 q2 = [x].
Proof.
  intro H. destruct (intersection_spec q1 q2) as [Hnd Hin].
  apply NoDup_singleton; [exact Hnd |].
  intro y. rewrite Hin. apply H.
Qed.

Lemma set_of_singleton (x : nat) : set_of [x] = [x].
Proof. reflexivity. Qed.

Lemma index_distinct (items : list string) (x y : string) (i j : nat) :
  index items x = Ok i -> index items y = Ok j -> x <> y -> i <> j.
Proof.
  intros Hi Hj Hne E. subst j.
  apply index_nth in Hi, Hj. congruence.
Qed.

Lemma store_row_ok (items : list string) (row : triple) (g : Graph) :
  In (exon row) items -> In (junction row) items ->
  In (direction row) DIRECTIONS ->
  exists g', store_row items g row = Ok g'.
Proof.
  intros He Hj Hd. unfold store_row.
  destruct (index_In_ok _ _ He) as [ei Hei].
  destruct (index_In_ok _ _ Hj) as [ji Hji].
  rewrite Hji, Hei. simpl. unfold store.
  destruct (opposite_direction _ Hd) as [[-> ->] | [-> ->]]; simpl; eauto.
Qed.

Ltac rewrite_neqb :=
  repeat match goal with
         | H : ?a <> ?b |- context [Nat.eqb ?a ?b] =>
             rewrite (proj2 (Nat.eqb_neq a b) H)
         | |- context [Nat.eqb ?a ?a] => rewrite (Nat.eqb_refl a)
         end.

Section AnyOrder.

Variable locate : string -> option location.
Variables e1 e2 e3 j1 j2 j3 : string.
Variables r1 r2 r3 q1 q2 q3 : Region.
Hypothesis Hnd : NoDup [e1; e2; e3; j1; j2; j3].
Hypothesis Hr1 : Region_init locate e1 = Ok r1.
Hypothesis Hr2 : Region_init locate e2 = Ok r2.
Hypothesis Hr3 : Region_init locate e3 = Ok r3.
Hypothesis Hq1 : Region_init locate j1 = Ok q1.
Hypothesis Hq2 : Region_init locate j2 = Ok q2.
Hypothesis Hq3 : Region_init locate j3 = Ok q3.
Hypothesis H23 : (start r2 < start r3)%Z.
Hypothesis Ho23 : overlaps r2 r3 = false.

Variable T : list triple.
Hypothesis Hperm : Permutation T (six_triples e1 e2 e3 j1 j2 j3).

Lemma In_T (t : triple) : In t T <-> In t (six_triples e1 e2 e3 j1 j2 j3).
Proof.
  split; apply Permutation_in; [exact Hperm | apply Permutation_sym, Hperm].
Qed.

Lemma exons_spec :
  NoDup (unique (map exon T)) /\
  forall x, In x (unique (map exon T)) <-> In x [e1; e2; e3].
Proof.
  destruct (unique_spec (map exon T)) as [Hn Hin]. split; [exact Hn |].
  intro x. rewrite Hin.
  assert (P : Permutation (map exon T)
                (map exon (six_triples e1 e2 e3 j1 j2 j3)))
    by (apply Permutation_map; exact Hperm).
  split; intro H.
  - apply (Permutation_in _ P) in H. simpl in H. simpl. tauto.
  - apply (Permutation_in _ (Permutation_sym P)). simpl in *. tauto.
Qed.

Lemma junctions_spec :
  NoDup (unique (map junction T)) /\
  forall x, In x (unique (map junction T)) <-> In x [j1; j2; j3].
Proof.
  destruct (unique_spec (map junction T)) as [Hn Hin]. split; [exact Hn |].
  intro x. rewrite Hin.
  assert (P : Permutation (map junction T)
                (map junction (six_triples e1 e2 e3 j1 j2 j3)))
    by (apply Permutation_map; exact Hperm).
  split; intro H.
  - apply (Permutation_in _ P) in H. simpl in H. simpl. tauto.
  - apply (Permutation_in _ (Permutation_sym P)). simpl in *. tauto.
Qed.

Lemma items_spec :
  forall x, In x (unique (map exon T) ++ unique (map junction T)) <->
            In x [e1; e2; e3; j1; j2; j3].
Proof.
  intro x. rewrite in_app_iff.
  rewrite (proj2 exons_spec), (proj2 junctions_spec). simpl. tauto.
Qed.

Lemma parses (x : string) :
  In x [e1; e2; e3; j1; j2; j3] -> exists r, Region_init locate x = Ok r.
Proof.
  simpl. intros [<- | [<- | [<- | [<- | [<- | [<- | []]]]]]]; eauto.
Qed.

Lemma init_succeeds : exists self, JunctionAggregator_init locate T = Ok self.
Proof.
  unfold JunctionAggregator_init.
  destruct (mapM_ok (fun s => r <- Region_init locate s ;; Ok (s, r))
              (fun _ => True)
              (unique (map exon T) ++ unique (map junction T)))
    as [series [Hs _]].
  { intros x Hx. apply items_spec, parses in Hx. destruct Hx as [r Hr].
    exists (x, r). rewrite Hr. simpl. auto. }
  rewrite Hs. simpl.
  destruct (foldM_ok (store_row (unique (map exon T) ++
                                 unique (map junction T))) T) with (s := connect)
    as [g Hg].
  { intros g t Ht. apply In_T in Ht. apply store_row_ok.
    - apply items_spec. simpl in Ht.
      decompose [or] Ht; subst; simpl; tauto.
    - apply items_spec. simpl in Ht.
      decompose [or] Ht; subst; simpl; tauto.
    - simpl in Ht. decompose [or] Ht; subst; simpl; tauto. }
  rewrite Hg. simpl. eauto.
Qed.


(** The aggregator built from the table, and the positions of the six
    ids in its [items]. *)
Variable self : JunctionAggregator.
Hypothesis Hinit : JunctionAggregator_init locate T = Ok self.
Variables i1 i2 i3 k1 k2 k3 : nat.
Hypothesis Hi1 : index (items self) e1 = Ok i1.
Hypothesis Hi2 : index (items self) e2 = Ok i2.
Hypothesis Hi3 : index (items self) e3 = Ok i3.
Hypothesis Hk1 : index (items self) j1 = Ok k1.
Hypothesis Hk2 : index (items self) j2 = Ok k2.
Hypothesis Hk3 : index (items self) j3 = Ok k3.

Lemma idx_neq (a b : nat) (i j : nat) :
  nth_error [i1; i2; i3; k1; k2; k3] a = Some i ->
  nth_error [i1; i2; i3; k1; k2; k3] b = Some j ->
  a <> b -> i <> j.
Proof.
  intros Ha Hb Hab.
  assert (Hidx : forall c i,
             nth_error [i1; i2; i3; k1; k2; k3] c = Some i ->
             exists x, nth_error [e1; e2; e3; j1; j2; j3] c = Some x /\
                       index (items self) x = Ok i).
  { intros c i0 Hc.
    do 6 (destruct c as [| c];
          [injection Hc as <-; simpl; eexists; split;
           [reflexivity | assumption] |]).
    destruct c; discriminate Hc. }
  destruct (Hidx a i Ha) as [x [Hx Hix]].
  destruct (Hidx b j Hb) as [y [Hy Hjy]].
  apply (index_distinct _ x y i j Hix Hjy).
  apply String.eqb_neq. exact (NoDup_eqb_false _ Hnd a b x y Hx Hy Hab).
Qed.

Ltac indices_distinct :=
  distinct_from idx_neq 0; distinct_from idx_neq 1; distinct_from idx_neq 2;
  distinct_from idx_neq 3; distinct_from idx_neq 4; distinct_from idx_neq 5.

Local Abbreviation U :=
  ([(i1, k1); (i2, k2); (i1, k3); (k1, i2); (k2, i3); (k3, i3)] : table).
Local Abbreviation D :=
  ([(k1, i1); (k2, i2); (k3, i1); (i2, k1); (i3, k2); (i3, k3)] : table).

Lemma item_of_index (x : string) (i : nat) :
  index (items self) x = Ok i -> item (items self) i = Ok x.
Proof. intro H. apply index_nth in H. unfold item. rewrite H. reflexivity. Qed.

Lemma upstream_spec : forall p, In p (upstream (graph self)) <-> In p U.
Proof.
  pose proof (init_fields _ _ _ Hinit) as [_ [_ [_ [_ [_ Hg]]]]].
  apply store_rows_edges in Hg. destruct Hg as [Hu _].
  intro p. rewrite Hu. split.
  - intros [[] | [t [Ht [ei [ji [E1 [E2 Hc]]]]]]].
    apply In_T in Ht. simpl in Ht.
    decompose [or] Ht; try contradiction; subst t; simpl in *;
      rewrite ?Hi1, ?Hi2, ?Hi3 in E1; rewrite ?Hk1, ?Hk2, ?Hk3 in E2;
      injection E1 as <-; injection E2 as <-;
      destruct Hc as [[Hd ->] | [Hd ->]]; try discriminate Hd; tauto.
  - intro Hp. right. simpl in Hp.
    decompose [or] Hp; try contradiction; subst p.
    + exists (mkTriple e1 UPSTREAM j1). rewrite In_T. split; [simpl; tauto |].
      exists i1, k1. simpl. auto.
    + exists (mkTriple e2 UPSTREAM j2). rewrite In_T. split; [simpl; tauto |].
      exists i2, k2. simpl. auto.
    + exists (mkTriple e1 UPSTREAM j3). rewrite In_T. split; [simpl; tauto |].
      exists i1, k3. simpl. auto.
    + exists (mkTriple e2 DOWNSTREAM j1). rewrite In_T.
      split; [simpl; tauto |]. exists i2, k1. simpl. auto.
    + exists (mkTriple e3 DOWNSTREAM j2). rewrite In_T.
      split; [simpl; tauto |]. exists i3, k2. simpl. auto.
    + exists (mkTriple e3 DOWNSTREAM j3). rewrite In_T.
      split; [simpl; tauto |]. exists i3, k3. simpl. auto.
Qed.

Lemma downstream_spec : forall p, In p (downstream (graph self)) <-> In p D.
Proof.
  pose proof (init_fields _ _ _ Hinit) as [_ [_ [_ [_ [_ Hg]]]]].
  apply store_rows_edges in Hg. destruct Hg as [_ Hd].
  intro p. rewrite Hd. split.
  - intros [[] | [t [Ht [ei [ji [E1 [E2 Hc]]]]]]].
    apply In_T in Ht. simpl in Ht.
    decompose [or] Ht; try contradiction; subst t; simpl in *;
      rewrite ?Hi1, ?Hi2, ?Hi3 in E1; rewrite ?Hk1, ?Hk2, ?Hk3 in E2;
      injection E1 as <-; injection E2 as <-;
      destruct Hc as [[Hdir ->] | [Hdir ->]]; try discriminate Hdir; tauto.
  - intro Hp. right. simpl in Hp.
    decompose [or] Hp; try contradiction; subst p.
    + exists (mkTriple e1 UPSTREAM j1). rewrite In_T. split; [simpl; tauto |].
      exists i1, k1. simpl. auto.
    + exists (mkTriple e2 UPSTREAM j2). rewrite In_T. split; [simpl; tauto |].
      exists i2, k2. simpl. auto.
    + exists (mkTriple e1 UPSTREAM j3). rewrite In_T. split; [simpl; tauto |].
      exists i1, k3. simpl. auto.
    + exists (mkTriple e2 DOWNSTREAM j1). rewrite In_T.
      split; [simpl; tauto |]. exists i2, k1. simpl. auto.
    + exists (mkTriple e3 DOWNSTREAM j2). rewrite In_T.
      split; [simpl; tauto |]. exists i3, k2. simpl. auto.
    + exists (mkTriple e3 DOWNSTREAM j3). rewrite In_T.
      split; [simpl; tauto |]. exists i3, k3. simpl. auto.
Qed.

Lemma upstream_perm : Permutation (upstream (graph self)) U.
Proof.
  pose proof (init_fields _ _ _ Hinit) as [_ [_ [_ [_ [_ Hg]]]]].
  apply store_rows_tables in Hg. destruct Hg as [Hu _].
  rewrite Hu. simpl.
  apply (Permutation_trans (Permutation_map (up_edge (items self)) Hperm)).
  unfold six_triples, up_edge, position. simpl.
  rewrite Hi1, Hi2, Hi3, Hk1, Hk2, Hk3.
  apply perm_skip. apply (Permutation_cons_app [(i2, k2); (i1, k3)]).
  simpl. apply perm_skip. apply perm_swap.
Qed.

Lemma series_loc (x : string) (r : Region) :
  In x [e1; e2; e3; j1; j2; j3] -> Region_init locate x = Ok r ->
  loc (item_to_region self) x = Ok r.
Proof.
  intros Hx Hr.
  pose proof (init_fields _ _ _ Hinit) as [_ [He [Hj [Hitems [Hseries _]]]]].
  assert (Hin : In x (items self)).
  { rewrite Hitems, He, Hj. apply items_spec. exact Hx. }
  destruct (loc_ok _ _ _ Hseries x Hin) as [r' [Hloc Hname]].
  pose proof (loc_known _ _ _ Hseries _ _ Hloc) as Hk.
  unfold known_region in Hk. rewrite Hname in Hk.
  rewrite Hloc. congruence.
Qed.

Ltac solve_members :=
  let y := fresh "y" in
  let H := fresh "H" in
  intro y;
  rewrite ?In_select_dst_iff, ?In_select_src_iff,
          ?upstream_spec, ?downstream_spec;
  simpl;
  split;
  [ intros; repeat match goal with
                   | H : _ /\ _ |- _ => destruct H
                   | H : _ \/ _ |- _ => destruct H
                   | H : False |- _ => contradiction
                   end;
    try congruence;
    match goal with
    | E : (_, _) = (_, _) |- _ => inversion E; subst; simpl; tauto
    end
  | intro H; repeat (destruct H as [H | H]); subst;
    try contradiction; tauto ].

Lemma junction23_check :
  intersection (select_dst (upstream (graph self)) i2)
               (select_src (upstream (graph self)) i3) = [k2].
Proof. indices_distinct. apply intersection_singleton. solve_members. Qed.

Lemma junction13 :
  intersection (select_dst (upstream (graph self)) i1)
               (select_dst (downstream (graph self)) i3) = [k3].
Proof. indices_distinct. apply intersection_singleton. solve_members. Qed.

Lemma junction12 :
  intersection (select_dst (upstream (graph self)) i1)
               (select_dst (downstream (graph self)) i2) = [k1].
Proof. indices_distinct. apply intersection_singleton. solve_members. Qed.

Lemma junction23 :
  intersection (select_dst (upstream (graph self)) i2)
               (select_dst (downstream (graph self)) i3) = [k2].
Proof. indices_distinct. apply intersection_singleton. solve_members. Qed.


Local Abbreviation the_key := ([e1; e2; e3] : list string).
Local Abbreviation the_junctions := ([j1; j2; j3] : list string).

(** The one candidate pair of [e1], in either order, is recorded. *)
Lemma se_pair_records (events : event_dict) (exon_a exon_b : Region) :
  (exon_a, exon_b) = (r2, r3) \/ (exon_a, exon_b) = (r3, r2) ->
  se_pair self e1 i1 events (exon_a, exon_b)
  = Ok (dict_set events the_key the_junctions).
Proof.
  intro Hab.
  pose proof (Region_init_name _ _ _ Hr2) as N2.
  pose proof (Region_init_name _ _ _ Hr3) as N3.
  assert (M1 : (start r3 <? start r2)%Z = false) by (apply Z.ltb_ge; lia).
  assert (M2 : (start r2 <? start r3)%Z = true) by (apply Z.ltb_lt; lia).
  assert (Ho32 : overlaps r3 r2 = false) by (rewrite overlaps_sym; exact Ho23).
  unfold se_pair.
  destruct Hab as [E | E]; injection E as -> ->;
    rewrite ?Ho23, ?Ho32; cbn [negb];
    unfold min_by_start, max_by_start; rewrite ?M1, ?M2, N2, N3, Hi2, Hi3;
    cbn [bind];
    rewrite junction23_check, junction13, junction12, junction23;
    unfold set_of, item; simpl;
    rewrite (index_nth _ _ _ Hk1), (index_nth _ _ _ Hk2),
            (index_nth _ _ _ Hk3);
    reflexivity.
Qed.

Lemma candidates_from_exon1 :
  let q := traverse (upstream (graph self))
                    (select_src (downstream (graph self)) i1) in
  q = [i2; i3] \/ q = [i3; i2].
Proof.
  indices_distinct. cbv zeta.
  apply Permutation_length_2_inv. apply Permutation_sym.
  eapply Permutation_trans.
  - apply (traverse_perm _ U _ [k1; k3]); [apply upstream_perm |].
    solve_members.
  - unfold traverse, mem. simpl. rewrite_neqb. simpl. apply Permutation_refl.
Qed.

Lemma candidates_from_exon2 :
  traverse (upstream (graph self))
           (select_src (downstream (graph self)) i2) = [i3].
Proof.
  indices_distinct.
  apply Permutation_length_1_inv. apply Permutation_sym.
  eapply Permutation_trans.
  - apply (traverse_perm _ U _ [k2]); [apply upstream_perm |].
    solve_members.
  - unfold traverse, mem. simpl. rewrite_neqb. simpl. apply Permutation_refl.
Qed.

Lemma candidates_from_exon3 :
  traverse (upstream (graph self))
           (select_src (downstream (graph self)) i3) = [].
Proof.
  indices_distinct.
  apply Permutation_nil. apply Permutation_sym.
  eapply Permutation_trans.
  - apply (traverse_perm _ U _ []); [apply upstream_perm |].
    solve_members.
  - unfold traverse, mem. simpl. apply Permutation_refl.
Qed.

Lemma regions_of_exons :
  regions_of self [i2; i3] = Ok [r2; r3] /\
  regions_of self [i3; i2] = Ok [r3; r2] /\
  regions_of self [i3] = Ok [r3] /\
  regions_of self [] = Ok [].
Proof.
  unfold regions_of. cbn [mapM bind].
  rewrite (item_of_index _ _ Hi2), (item_of_index _ _ Hi3). cbn [mapM bind].
  rewrite (series_loc e2 r2), (series_loc e3 r3) by (simpl; tauto || assumption).
  repeat split; reflexivity.
Qed.

Lemma step_exon1 (events : event_dict) :
  se_exon1 self events e1 = Ok (dict_set events the_key the_junctions).
Proof.
  unfold se_exon1. rewrite Hi1. cbn [bind].
  destruct regions_of_exons as [R23 [R32 _]].
  destruct candidates_from_exon1 as [-> | ->].
  - rewrite R23. cbn [bind combinations2 map app foldM].
    rewrite se_pair_records by auto. reflexivity.
  - rewrite R32. cbn [bind combinations2 map app foldM].
    rewrite se_pair_records by auto. reflexivity.
Qed.

Lemma step_exon2 (events : event_dict) :
  se_exon1 self events e2 = Ok events.
Proof.
  unfold se_exon1. rewrite Hi2. cbn [bind].
  rewrite candidates_from_exon2.
  destruct regions_of_exons as [_ [_ [R3 _]]]. rewrite R3. reflexivity.
Qed.

Lemma step_exon3 (events : event_dict) :
  se_exon1 self events e3 = Ok events.
Proof.
  unfold se_exon1. rewrite Hi3. cbn [bind].
  rewrite candidates_from_exon3.
  destruct regions_of_exons as [_ [_ [_ R0]]]. rewrite R0. reflexivity.
Qed.

(** Only the iteration for [e1] changes the events, and it always leaves
    the same single event. *)
Lemma fold_steps (l : list string) :
  (forall x, In x l -> In x [e1; e2; e3]) ->
  forall events,
    events = [] \/ events = [(the_key, the_junctions)] ->
    foldM (se_exon1 self) events l
    = Ok (if existsb (String.eqb e1) l
          then [(the_key, the_junctions)] else events).
Proof.
  pose proof (NoDup_eqb_false _ Hnd 0 1 _ _ eq_refl eq_refl) as N12.
  pose proof (NoDup_eqb_false _ Hnd 0 2 _ _ eq_refl eq_refl) as N13.
  induction l as [| x xs IH]; intros Hl events Hev; [reflexivity |].
  assert (Hxs : forall y, In y xs -> In y [e1; e2; e3])
    by (intros; apply Hl; simpl; auto).
  cbn [foldM existsb].
  destruct (Hl x (or_introl eq_refl)) as [<- | [<- | [<- | []]]].
  - rewrite step_exon1. cbn [bind]. rewrite String.eqb_refl. cbn [orb].
    assert (E : dict_set events the_key the_junctions
                = [(the_key, the_junctions)]).
    { destruct Hev as [-> | ->]; [reflexivity |].
      simpl. unfold key_eqb.
      destruct (list_eq_dec string_dec the_key the_key); [reflexivity |].
      congruence. }
    rewrite E. rewrite (IH Hxs) by auto.
    destruct (existsb (String.eqb e1) xs); reflexivity.
  - rewrite step_exon2. cbn [bind]. rewrite N12 by discriminate. cbn [orb].
    apply (IH Hxs). exact Hev.
  - rewrite step_exon3. cbn [bind]. rewrite N13 by discriminate. cbn [orb].
    apply (IH Hxs). exact Hev.
Qed.

Lemma skipped_exon_result :
  skipped_exon self
  = Ok [mkRow [e1; e2; e3] [j1; j2; j3] (String.concat "@" [e1; e2; e3])].
Proof.
  unfold skipped_exon, skipped_exon_events.
  pose proof (init_fields _ _ _ Hinit) as [_ [He _]].
  rewrite fold_steps.
  - assert (Hin : existsb (String.eqb e1) (exons self) = true).
    { apply existsb_eqb_In. rewrite He. apply exons_spec. simpl. auto. }
    rewrite Hin. reflexivity.
  - intros x Hx. rewrite He in Hx. apply exons_spec. exact Hx.
  - auto.
Qed.

End AnyOrder.

(** C2. On the six triples of the scenario, in whatever order the table
    lists them, with [e1], [e2], [e3] of strictly increasing start and
    pairwise non-overlapping, the skipped-exon detector returns exactly
    one row: exons [(e1, e2, e3)], [junction12 = j1], [junction23 = j2],
    [junction13 = j3]. *)
Theorem skipped_exon_scenario_one_event
    (locate : string -> option location)
    (e1 e2 e3 j1 j2 j3 : string) (r1 r2 r3 q1 q2 q3 : Region)
    (triples : list triple) :
  NoDup [e1; e2; e3; j1; j2; j3] ->
  Region_init locate e1 = Ok r1 ->
  Region_init locate e2 = Ok r2 ->
  Region_init locate e3 = Ok r3 ->
  Region_init locate j1 = Ok q1 ->
  Region_init locate j2 = Ok q2 ->
  Region_init locate j3 = Ok q3 ->
  (start r1 < start r2)%Z ->
  (start r2 < start r3)%Z ->
  overlaps r1 r2 = false ->
  overlaps r2 r3 = false ->
  overlaps r1 r3 = false ->
  Permutation triples (six_triples e1 e2 e3 j1 j2 j3) ->
  run_skipped_exon locate triples
  = Ok [mkRow [e1; e2; e3] [j1; j2; j3] (String.concat "@" [e1; e2; e3])].
Proof.
  intros Hnd Hr1 Hr2 Hr3 Hq1 Hq2 Hq3 _ H23 _ Ho23 _ Hperm.
  destruct (init_succeeds locate e1 e2 e3 j1 j2 j3 r1 r2 r3 q1 q2 q3
              Hr1 Hr2 Hr3 Hq1 Hq2 Hq3 triples Hperm) as [self Hinit].
  pose proof (init_fields _ _ _ Hinit) as [_ [He [Hj [Hitems _]]]].
  assert (Hin : forall x, In x [e1; e2; e3; j1; j2; j3] ->
                          exists i, index (items self) x = Ok i).
  { intros x Hx. apply index_In_ok. rewrite Hitems, He, Hj.
    apply (items_spec e1 e2 e3 j1 j2 j3 triples Hperm). exact Hx. }
  destruct (Hin e1) as [i1 Hi1]; [simpl; tauto |].
  destruct (Hin e2) as [i2 Hi2]; [simpl; tauto |].
  destruct (Hin e3) as [i3 Hi3]; [simpl; tauto |].
  destruct (Hin j1) as [k1 Hk1]; [simpl; tauto |].
  destruct (Hin j2) as [k2 Hk2]; [simpl; tauto |].
  destruct (Hin j3) as [k3 Hk3]; [simpl; tauto |].
  unfold run_skipped_exon. rewrite Hinit. cbn [bind].
  exact (skipped_exon_result locate e1 e2 e3 j1 j2 j3 r2 r3 Hnd Hr2 Hr3
           H23 Ho23 triples Hperm self Hinit i1 i2 i3 k1 k2 k3
           Hi1 Hi2 Hi3 Hk1 Hk2 Hk3).
Qed.

Lemma skipped_exon_scenario_witness :
  run_skipped_exon parse_location (rev scenario_triples)
  = Ok [mkRow [exonA; exonB; exonC] [junctionAB; junctionBC; junctionAC]
              (String.concat "@" [exonA; exonB; exonC])].
Proof.
  refine (skipped_exon_scenario_one_event parse_location
            exonA exonB exonC junctionAB junctionBC junctionAC
            _ _ _ _ _ _ (rev scenario_triples)
            _ _ _ _ _ _ _ _ _ _ _ _ _);
    try (vm_compute; reflexivity).
  - repeat constructor; simpl; intuition discriminate.
  - apply Permutation_sym, Permutation_rev.
Defined.

(** ** Junctions adjacent to exons *)

Lemma In_make_junction_direction_df (ind : mask) (d e : string)
    (t : triple) :
  In t (make_junction_direction_df ind d e) <->
  exon t = e /\ direction t = d /\ In (junction t, true) ind.
Proof.
  unfold make_junction_direction_df. rewrite in_map_iff. split.
  - intros [j [<- Hj]]. simpl. apply in_map_iff in Hj.
    destruct Hj as [[j' b] [<- Hin]]. apply filter_In in Hin.
    destruct Hin as [Hin Hb]. simpl in *. subst b. auto.
  - intros [He [Hd Hin]]. exists (junction t). split.
    + destruct t. simpl in *. subst. reflexivity.
    + apply in_map_iff. exists (junction t, true). split; [reflexivity |].
      apply filter_In. auto.
Qed.

Lemma any_true (ind : mask) :
  any ind = true <-> exists j, In (j, true) ind.
Proof.
  unfold any. rewrite existsb_exists. split.
  - intros [[j b] [Hin Hb]]. simpl in Hb. subst b. eauto.
  - intros [j Hin]. exists (j, true). auto.
Qed.

Lemma In_direction_dfs (e : string) (inds : list (string * mask))
    (t : triple) :
  In t (List.concat (direction_dfs e inds)) <->
  exists d ind, In (d, ind) inds /\
                In t (make_junction_direction_df ind d e).
Proof.
  unfold direction_dfs. rewrite in_concat. split.
  - intros [df [Hdf Ht]]. apply in_flat_map in Hdf.
    destruct Hdf as [[d ind] [Hin Hdf]]. simpl in Hdf.
    destruct (any ind); [| contradiction].
    destruct Hdf as [<- | []]. eauto.
  - intros [d [ind [Hin Ht]]].
    exists (make_junction_direction_df ind d e). split; [| exact Ht].
    apply in_flat_map. exists (d, ind). split; [exact Hin |]. simpl.
    assert (Hany : any ind = true).
    { apply any_true. apply In_make_junction_direction_df in Ht.
      destruct Ht as [_ [_ Ht]]. eauto. }
    rewrite Hany. simpl. auto.
Qed.

Lemma direction_dfs_rows (e : string) (inds : list (string * mask)) :
  direction_dfs e inds <> [] <->
  exists t, In t (List.concat (direction_dfs e inds)).
Proof.
  split.
  - intro Hne. unfold direction_dfs in *.
    destruct (flat_map _ inds) as [| df dfs] eqn:E; [contradiction |].
    assert (Hdf : In df (flat_map
                           (fun di : string * mask =>
                              if any (snd di)
                              then [make_junction_direction_df (snd di)
                                      (fst di) e]
                              else []) inds))
      by (rewrite E; simpl; auto).
    apply in_flat_map in Hdf. destruct Hdf as [[d ind] [Hin Hdf]].
    simpl in Hdf. destruct (any ind) eqn:Hany; [| contradiction].
    destruct Hdf as [<- | []].
    apply any_true in Hany. destruct Hany as [j Hj].
    exists (mkTriple e d j). simpl. apply in_or_app. left.
    apply In_make_junction_direction_df. simpl. auto.
  - intros [t Ht] E. rewrite E in Ht. contradiction.
Qed.

Lemma In_genome_mask (sj_metadata : list sj_row) (e : exon_feature)
    (coordinate : sj_row -> Z) (z : Z) (j : string) :
  In (j, true)
     (map (fun r => (sj_junction r,
                     String.eqb (sj_chrom r) (ef_chrom e) &&
                     String.eqb (sj_strand r) (ef_strand e) &&
                     Z.eqb (coordinate r) z)) sj_metadata) <->
  exists r, In r sj_metadata /\ j = sj_junction r /\
            sj_chrom r = ef_chrom e /\ sj_strand r = ef_strand e /\
            coordinate r = z.
Proof.
  rewrite in_map_iff. split.
  - intros [r [E Hin]]. injection E as <- Hb.
    apply andb_prop in Hb. destruct Hb as [Hb Hz].
    apply andb_prop in Hb. destruct Hb as [Hc Hs].
    apply String.eqb_eq in Hc, Hs. apply Z.eqb_eq in Hz.
    exists r. auto.
  - intros [r [Hin [-> [Hc [Hs Hz]]]]]. exists r. split; [| exact Hin].
    apply String.eqb_eq in Hc, Hs. apply Z.eqb_eq in Hz.
    rewrite Hc, Hs, Hz. reflexivity.
Qed.

Lemma In_exon_dfs (sj_metadata : list sj_row) (e : exon_feature)
    (t : triple) :
  In t (List.concat
          (direction_dfs (ef_id e)
             [(UPSTREAM, adj_upstream (genome_adjacent e sj_metadata));
              (DOWNSTREAM, adj_downstream (genome_adjacent e sj_metadata))]))
  <-> relates sj_metadata e (direction t) t.
Proof.
  rewrite In_direction_dfs. unfold relates, genome_side. split.
  - intros [d [ind [Hin Ht]]]. apply In_make_junction_direction_df in Ht.
    destruct Ht as [He [Hd Hj]]. split; [exact He |].
    destruct Hin as [E | [E | []]]; injection E as <- <-;
      simpl in Hj; apply In_genome_mask in Hj;
      destruct Hj as [r [Hr [Hjr [Hc [Hs Hz]]]]];
      exists r; rewrite Hd; auto 10.
  - intros [He [r [Hr [Hj [Hc [Hs [[Hd Hz] | [Hd Hz]]]]]]]].
    + exists UPSTREAM, (adj_upstream (genome_adjacent e sj_metadata)).
      split; [simpl; auto |]. apply In_make_junction_direction_df.
      repeat split; auto. simpl. apply In_genome_mask. exists r. auto.
    + exists DOWNSTREAM, (adj_downstream (genome_adjacent e sj_metadata)).
      split; [simpl; auto |]. apply In_make_junction_direction_df.
      repeat split; auto. simpl. apply In_genome_mask. exists r. auto.
Qed.

Lemma get_adjacent_exons_dfs (sj_metadata : list sj_row)
    (db : list exon_feature) :
  get_adjacent_exons sj_metadata db
  = match flat_map
            (fun e => direction_dfs (ef_id e)
               [(UPSTREAM, adj_upstream (genome_adjacent e sj_metadata));
                (DOWNSTREAM,
                 adj_downstream (genome_adjacent e sj_metadata))]) db with
    | [] => Raise ValueError
    | df :: dfs => Ok (List.concat (df :: dfs))
    end.
Proof.
  unfold get_adjacent_exons, genome_adjacent. simpl.
  destruct (flat_map _ db); reflexivity.
Qed.

Lemma In_concat_flat_map {A B : Type} (f : A -> list (list B)) (l : list A)
    (y : B) :
  In y (List.concat (flat_map f l)) <->
  exists x, In x l /\ In y (List.concat (f x)).
Proof.
  rewrite in_concat. split.
  - intros [ys [Hys Hy]]. apply in_flat_map in Hys.
    destruct Hys as [x [Hx Hys]]. exists x. split; [exact Hx |].
    apply in_concat. eauto.
  - intros [x [Hx Hy]]. apply in_concat in Hy. destruct Hy as [ys [Hys Hy]].
    exists ys. split; [| exact Hy]. apply in_flat_map. eauto.
Qed.

(** X1. When [get_adjacent_exons] returns a table, a triple is one of its
    rows exactly when it relates an exon of the database to a junction of
    [sj_metadata] on the same chromosome and strand whose [exon_stop] is
    the exon's stop (direction [upstream]) or whose [exon_start] is the
    exon's start (direction [downstream]). *)
Theorem get_adjacent_exons_rows
    (sj_metadata : list sj_row) (db : list exon_feature)
    (triples : list triple) :
  get_adjacent_exons sj_metadata db = Ok triples ->
  forall t, In t triples <->
            exists e, In e db /\ relates sj_metadata e (direction t) t.
Proof.
  rewrite get_adjacent_exons_dfs. intros H t.
  assert (Hrows : triples
               = List.concat
                   (flat_map
                      (fun e => direction_dfs (ef_id e)
                         [(UPSTREAM,
                           adj_upstream (genome_adjacent e sj_metadata));
                          (DOWNSTREAM,
                           adj_downstream (genome_adjacent e sj_metadata))])
                      db)).
  { destruct (flat_map _ db); [discriminate H |].
    injection H as <-. reflexivity. }
  rewrite Hrows, In_concat_flat_map.
  split; intros [e [He Ht]]; exists e; (split; [exact He |]);
    apply In_exon_dfs; exact Ht.
Qed.

(** X2. [get_adjacent_exons] raises [ValueError] exactly when no exon of
    the database has a junction against it, as with an empty database or
    an empty [sj_metadata]; in every other case it returns a table. *)
Theorem get_adjacent_exons_raises_without_adjacency
    (sj_metadata : list sj_row) (db : list exon_feature) :
  (get_adjacent_exons sj_metadata db = Raise ValueError <->
   forall e r d, In e db -> In r sj_metadata -> ~ genome_side e r d) /\
  (get_adjacent_exons sj_metadata db = Raise ValueError \/
   exists triples, get_adjacent_exons sj_metadata db = Ok triples).
Proof.
  rewrite get_adjacent_exons_dfs.
  destruct (flat_map _ db) as [| df dfs] eqn:E.
  - split; [| left; reflexivity].
    split; [| reflexivity]. intros _ e r d He Hr Hside.
    assert (Hin : In (mkTriple (ef_id e) d (sj_junction r))
                     (List.concat
                        (flat_map
                           (fun e => direction_dfs (ef_id e)
                              [(UPSTREAM,
                                adj_upstream (genome_adjacent e sj_metadata));
                               (DOWNSTREAM,
                                adj_downstream
                                  (genome_adjacent e sj_metadata))]) db))).
    { apply In_concat_flat_map. exists e. split; [exact He |].
      apply In_exon_dfs. simpl. split; [reflexivity |]. exists r. auto. }
    rewrite E in Hin. contradiction.
  - split; [| right; eauto]. split; [discriminate |]. intro Hnone. exfalso.
    assert (Hin : exists t, In t (List.concat (df :: dfs))).
    { assert (Hdf : In df (df :: dfs)) by (simpl; auto).
      rewrite <- E in Hdf. apply in_flat_map in Hdf.
      destruct Hdf as [e [He Hdf]].
      assert (Hne : direction_dfs (ef_id e)
                      [(UPSTREAM,
                        adj_upstream (genome_adjacent e sj_metadata));
                       (DOWNSTREAM,
                        adj_downstream (genome_adjacent e sj_metadata))]
                    <> [])
        by (intro E0; rewrite E0 in Hdf; contradiction).
      apply direction_dfs_rows in Hne. destruct Hne as [t Ht].
      exists t. rewrite <- E. apply In_concat_flat_map. eauto. }
    destruct Hin as [t Ht]. rewrite <- E in Ht.
    apply In_concat_flat_map in Ht. destruct Ht as [e [He Ht]].
    apply In_exon_dfs in Ht. destruct Ht as [_ [r [Hr [_ Hside]]]].
    exact (Hnone e r (direction t) He Hr Hside).
Qed.

(** ** When construction succeeds *)

Lemma In_items (triples : list triple) (x : string) :
  In x (unique (map exon triples) ++ unique (map junction triples)) <->
  exists t, In t triples /\ (x = exon t \/ x = junction t).
Proof.
  rewrite in_app_iff, (proj2 (unique_spec _)), (proj2 (unique_spec _)),
    !in_map_iff.
  split.
  - intros [[t [<- Ht]] | [t [<- Ht]]]; eauto.
  - intros [t [Ht [-> | ->]]]; eauto.
Qed.

Lemma construction_succeeds (locate : string -> option location)
    (triples : list triple) :
  (forall t, In t triples -> In (direction t) DIRECTIONS) ->
  (forall t, In t triples ->
             locate (exon t) <> None /\ locate (junction t) <> None) ->
  exists self, JunctionAggregator_init locate triples = Ok self.
Proof.
  intros Hdir Hloc. unfold JunctionAggregator_init.
  destruct (mapM_ok (fun s => r <- Region_init locate s ;; Ok (s, r))
              (fun _ => True)
              (unique (map exon triples) ++ unique (map junction triples)))
    as [series [Hs _]].
  { intros x Hx. apply In_items in Hx. destruct Hx as [t [Ht Hx]].
    assert (Hp : locate x <> None)
      by (destruct (Hloc t Ht); destruct Hx; subst; assumption).
    unfold Region_init.
    destruct (locate x) as [[[[c a] b] d] |]; [| contradiction].
    simpl. eauto. }
  rewrite Hs. simpl.
  destruct (foldM_ok
              (store_row (unique (map exon triples) ++
                          unique (map junction triples))) triples)
    with (s := connect) as [g Hg].
  { intros g t Ht. apply store_row_ok.
    - apply In_items. eauto.
    - apply In_items. eauto.
    - apply Hdir. exact Ht. }
  rewrite Hg. simpl. eauto.
Qed.

(** X3. [JunctionAggregator] is constructed from every triple table
    whose directions are ['upstream'] or ['downstream'] and whose exon
    and junction ids are all accepted by [Region]; and it is constructed
    from no table that holds an exon or junction id [Region] rejects,
    since the regions of all items are built before the first edge is
    stored. *)
Theorem construction_accepts_well_formed_tables
    (locate : string -> option location) (triples : list triple) :
  ((forall t, In t triples ->
              In (direction t) DIRECTIONS /\
              locate (exon t) <> None /\ locate (junction t) <> None) ->
   exists self, JunctionAggregator_init locate triples = Ok self) /\
  ((exists self, JunctionAggregator_init locate triples = Ok self) ->
   forall t, In t triples ->
             locate (exon t) <> None /\ locate (junction t) <> None).
Proof.
  split.
  - intro H. apply construction_succeeds; intros t Ht;
      destruct (H t Ht); tauto.
  - intros [self Hinit] t Ht.
    pose proof (init_fields _ _ _ Hinit) as [_ [He [Hj [Hitems [Hs _]]]]].
    assert (Hparse : forall x, In x (items self) -> locate x <> None).
    { intros x Hx. destruct (mapM_Ok_all _ _ _ Hs x Hx) as [y Hy].
      unfold Region_init in Hy. destruct (locate x); [discriminate |].
      discriminate Hy. }
    rewrite Hitems, He, Hj in Hparse.
    split; apply Hparse; apply In_items; eauto.
Qed.

(** X4. A table returned by [get_adjacent_exons] is always accepted by
    [JunctionAggregator], provided [Region] accepts the ids of the exons
    and junctions: the directions it writes are the two of
    [DIRECTIONS]. *)
Theorem get_adjacent_exons_feeds_the_aggregator
    (locate : string -> option location)
    (sj_metadata : list sj_row) (db : list exon_feature)
    (triples : list triple) :
  get_adjacent_exons sj_metadata db = Ok triples ->
  (forall e, In e db -> locate (ef_id e) <> None) ->
  (forall r, In r sj_metadata -> locate (sj_junction r) <> None) ->
  exists self,
    JunctionAggregator_init locate triples = Ok self /\
    forall t, In t triples -> In (direction t) DIRECTIONS.
Proof.
  intros Hget Hexons Hjunctions.
  assert (Hrows : forall t, In t triples ->
            In (direction t) DIRECTIONS /\
            locate (exon t) <> None /\ locate (junction t) <> None).
  { intros t Ht.
    assert (Hrel : exists e, In e db /\
                             relates sj_metadata e (direction t) t).
    { rewrite get_adjacent_exons_dfs in Hget.
      assert (E : triples
                  = List.concat
                      (flat_map
                         (fun e => direction_dfs (ef_id e)
                            [(UPSTREAM,
                              adj_upstream (genome_adjacent e sj_metadata));
                             (DOWNSTREAM,
                              adj_downstream
                                (genome_adjacent e sj_metadata))]) db)).
      { destruct (flat_map _ db); [discriminate Hget |].
        injection Hget as <-. reflexivity. }
      rewrite E in Ht. apply In_concat_flat_map in Ht.
      destruct Ht as [e [He Ht]]. exists e. split; [exact He |].
      apply In_exon_dfs. exact Ht. }
    destruct Hrel as [e [He [Hid [r [Hr [Hj [_ [_ Hside]]]]]]]].
    rewrite Hid, Hj. repeat split; auto.
    destruct Hside as [[-> _] | [-> _]]; simpl; auto. }
  destruct (construction_succeeds locate triples) as [self Hself].
  - intros t Ht. apply Hrows. exact Ht.
  - intros t Ht. apply Hrows. exact Ht.
  - exists self. split; [exact Hself |]. intros t Ht. apply Hrows. exact Ht.
Qed.

Lemma get_adjacent_exons_rows_witness :
  exists triples,
    get_adjacent_exons scenario_sj_metadata scenario_exons = Ok triples /\
    Permutation triples scenario_triples /\
    forall t, In t triples <->
              exists e, In e scenario_exons /\
                        relates scenario_sj_metadata e (direction t) t.
Proof.
  eexists. split; [vm_compute; reflexivity |]. split.
  - apply NoDup_Permutation.
    + repeat (constructor; [simpl; intuition discriminate |]). constructor.
    + repeat (constructor; [simpl; intuition discriminate |]). constructor.
    + intro t. simpl. tauto.
  - exact (get_adjacent_exons_rows scenario_sj_metadata scenario_exons _
             eq_refl).
Defined.

Lemma get_adjacent_exons_feeds_the_aggregator_witness :
  exists triples self,
    get_adjacent_exons scenario_sj_metadata scenario_exons = Ok triples /\
    JunctionAggregator_init parse_location triples = Ok self /\
    forall t, In t triples -> In (direction t) DIRECTIONS.
Proof.
  eexists.
  destruct (get_adjacent_exons_feeds_the_aggregator parse_location
              scenario_sj_metadata scenario_exons _ eq_refl)
    as [self H].
  - intros e He. simpl in He.
    repeat (destruct He as [<- | He]; [vm_compute; discriminate |]).
    contradiction.
  - intros r Hr. simpl in Hr.
    repeat (destruct Hr as [<- | Hr]; [vm_compute; discriminate |]).
    contradiction.
  - exists self. split; [vm_compute; reflexivity |]. exact H.
Defined.

Lemma adjacent_junctions_rows (e : exon_feature) (sj_metadata : list sj_row)
    (a : adjacency) (t : triple) :
  In t (let dfs := direction_dfs (ef_id e)
                     [(UPSTREAM, adj_upstream a);
                      (DOWNSTREAM, adj_downstream a)] in
        if Nat.ltb 0 (List.length dfs) then List.concat dfs else []) <->
  In t (List.concat
          (direction_dfs (ef_id e)
             [(UPSTREAM, adj_upstream a); (DOWNSTREAM, adj_downstream a)])).
Proof.
  cbv zeta.
  destruct (direction_dfs (ef_id e) _) as [| df dfs]; simpl; tauto.
Qed.

Lemma In_swapped_dfs (sj_metadata : list sj_row) (e : exon_feature)
    (t : triple) :
  In t (List.concat
          (direction_dfs (ef_id e)
             [(UPSTREAM, adj_downstream (genome_adjacent e sj_metadata));
              (DOWNSTREAM, adj_upstream (genome_adjacent e sj_metadata))]))
  <-> exists d, direction t = opposite d /\ relates sj_metadata e d t.
Proof.
  rewrite In_direction_dfs. unfold relates, genome_side. split.
  - intros [d [ind [Hin Ht]]]. apply In_make_junction_direction_df in Ht.
    destruct Ht as [He [Hd Hj]].
    destruct Hin as [E | [E | []]]; injection E as <- <-;
      simpl in Hj; apply In_genome_mask in Hj;
      destruct Hj as [r [Hr [Hjr [Hc [Hs Hz]]]]].
    + exists DOWNSTREAM. split; [exact Hd |]. split; [exact He |].
      exists r. auto 10.
    + exists UPSTREAM. split; [exact Hd |]. split; [exact He |].
      exists r. auto 10.
  - intros [d [Hd [He [r [Hr [Hj [Hc [Hs [[-> Hz] | [-> Hz]]]]]]]]]].
    + exists DOWNSTREAM, (adj_upstream (genome_adjacent e sj_metadata)).
      split; [simpl; auto |]. apply In_make_junction_direction_df.
      repeat split; auto. simpl. apply In_genome_mask. exists r. auto.
    + exists UPSTREAM, (adj_downstream (genome_adjacent e sj_metadata)).
      split; [simpl; auto |]. apply In_make_junction_direction_df.
      repeat split; auto. simpl. apply In_genome_mask. exists r. auto.
Qed.

Lemma adjacent_junctions_plus (e : exon_feature) (sj_metadata : list sj_row) :
  ef_strand e = "+" ->
  exists rows,
    adjacent_junctions e sj_metadata = inl rows /\
    forall t, In t rows <-> relates sj_metadata e (direction t) t.
Proof.
  intro Hs. unfold adjacent_junctions, genome_to_transcript_adjacency.
  rewrite Hs. simpl String.eqb. cbv iota.
  eexists. split; [reflexivity |]. intro t.
  rewrite (adjacent_junctions_rows e sj_metadata
             (mkAdjacency (adj_upstream (genome_adjacent e sj_metadata))
                          (adj_downstream (genome_adjacent e sj_metadata)))).
  apply In_exon_dfs.
Qed.

Lemma adjacent_junctions_minus (e : exon_feature)
    (sj_metadata : list sj_row) :
  ef_strand e = "-" ->
  exists rows,
    adjacent_junctions e sj_metadata = inl rows /\
    forall t, In t rows <->
              exists d, direction t = opposite d /\ relates sj_metadata e d t.
Proof.
  intro Hs. unfold adjacent_junctions, genome_to_transcript_adjacency.
  rewrite Hs. simpl String.eqb. cbv iota.
  eexists. split; [reflexivity |]. intro t.
  rewrite (adjacent_junctions_rows e sj_metadata
             (mkAdjacency (adj_downstream (genome_adjacent e sj_metadata))
                          (adj_upstream (genome_adjacent e sj_metadata)))).
  apply In_swapped_dfs.
Qed.

(** X5. [adjacent_junctions] follows the strand of the exon.  On ['+'] its
    rows are the junctions lying against the exon, with the side they lie
    on in the genome as direction; on ['-'] they are the same junctions
    with the two directions exchanged; on any other strand
    [genome_to_transcript_adjacency] returns nothing and the call raises
    [AttributeError]. *)
Theorem adjacent_junctions_by_strand (e : exon_feature)
    (sj_metadata : list sj_row) :
  (ef_strand e = "+" ->
   exists rows,
     adjacent_junctions e sj_metadata = inl rows /\
     forall t, In t rows <-> relates sj_metadata e (direction t) t) /\
  (ef_strand e = "-" ->
   exists rows,
     adjacent_junctions e sj_metadata = inl rows /\
     forall t, In t rows <->
               exists d, direction t = opposite d /\
                         relates sj_metadata e d t) /\
  (ef_strand e <> "+" -> ef_strand e <> "-" ->
   adjacent_junctions e sj_metadata = inr AttributeError).
Proof.
  split; [apply adjacent_junctions_plus |].
  split; [apply adjacent_junctions_minus |].
  intros Hp Hm. unfold adjacent_junctions, genome_to_transcript_adjacency.
  apply String.eqb_neq in Hp, Hm. rewrite Hp, Hm. reflexivity.
Qed.

Lemma adjacent_junctions_by_strand_witness :
  exists rows,
    adjacent_junctions minus_exon minus_sj_metadata = inl rows /\
    forall t, In t rows <->
              exists d, direction t = opposite d /\
                        relates minus_sj_metadata minus_exon d t.
Proof.
  exact (proj1 (proj2 (adjacent_junctions_by_strand minus_exon
                         minus_sj_metadata)) eq_refl).
Defined.

(** X6. [get_adjacent_exons] does not look at the strand.  For an exon of
    the database on ['+'], every row [adjacent_junctions] gives for it is
    a row of the table of [get_adjacent_exons]; for an exon on ['-'], the
    table holds that row with the opposite direction. *)
Theorem get_adjacent_exons_keeps_genome_orientation
    (sj_metadata : list sj_row) (db : list exon_feature)
    (triples : list triple) (e : exon_feature) (rows : list triple) :
  get_adjacent_exons sj_metadata db = Ok triples ->
  In e db ->
  adjacent_junctions e sj_metadata = inl rows ->
  forall t, In t rows ->
    (ef_strand e = "+" /\ In t triples) \/
    (ef_strand e = "-" /\
     In (mkTriple (exon t) (opposite (direction t)) (junction t)) triples).
Proof.
  intros Hget He Hadj t Ht.
  assert (Hrows : forall t', In t' triples <->
                    exists e', In e' db /\
                               relates sj_metadata e' (direction t') t').
  { rewrite get_adjacent_exons_dfs in Hget. intro t'.
    assert (E : triples
                = List.concat
                    (flat_map
                       (fun e => direction_dfs (ef_id e)
                          [(UPSTREAM,
                            adj_upstream (genome_adjacent e sj_metadata));
                           (DOWNSTREAM,
                            adj_downstream
                              (genome_adjacent e sj_metadata))]) db)).
    { destruct (flat_map _ db); [discriminate Hget |].
      injection Hget as <-. reflexivity. }
    rewrite E, In_concat_flat_map.
    split; intros [e' [He' Ht']]; exists e'; (split; [exact He' |]);
      apply In_exon_dfs; exact Ht'. }
  destruct (string_dec (ef_strand e) "+") as [Hp | Hp].
  - left. split; [exact Hp |].
    destruct (adjacent_junctions_plus e sj_metadata Hp) as [rows' [E Hin]].
    rewrite Hadj in E. injection E as <-.
    apply Hrows. exists e. split; [exact He |]. apply Hin. exact Ht.
  - destruct (string_dec (ef_strand e) "-") as [Hm | Hm].
    + right. split; [exact Hm |].
      destruct (adjacent_junctions_minus e sj_metadata Hm)
        as [rows' [E Hin]].
      rewrite Hadj in E. injection E as <-.
      apply Hin in Ht. destruct Ht as [d [Hd Hrel]].
      apply Hrows. exists e. split; [exact He |]. simpl.
      destruct Hrel as [Hid [r [Hr [Hj Hside]]]].
      assert (Hdd : opposite (direction t) = d).
      { rewrite Hd. destruct Hside as [_ [_ [[-> _] | [-> _]]]];
          reflexivity. }
      rewrite Hdd. split; [exact Hid |]. exists r. auto.
    + exfalso. unfold adjacent_junctions, genome_to_transcript_adjacency
        in Hadj.
      apply String.eqb_neq in Hp, Hm. rewrite Hp, Hm in Hadj.
      discriminate Hadj.
Qed.

Lemma get_adjacent_exons_keeps_genome_orientation_witness :
  exists triples rows,
    get_adjacent_exons minus_sj_metadata [minus_exon] = Ok triples /\
    adjacent_junctions minus_exon minus_sj_metadata = inl rows /\
    forall t, In t rows ->
      (ef_strand minus_exon = "+" /\ In t triples) \/
      (ef_strand minus_exon = "-" /\
       In (mkTriple (exon t) (opposite (direction t)) (junction t))
          triples).
Proof.
  eexists. eexists. split; [vm_compute; reflexivity |].
  split; [vm_compute; reflexivity |].
  exact (get_adjacent_exons_keeps_genome_orientation minus_sj_metadata
           [minus_exon] _ minus_exon _ eq_refl (or_introl eq_refl)
           eq_refl).
Defined.

(** ** Items, positions and nodes *)

Lemma index_not_In (items : list string) (x : string) :
  ~ In x items -> index items x = Raise ValueError.
Proof.
  induction items as [| y ys IH]; simpl; intro Hn; [reflexivity |].
  destruct (String.eqb_spec y x) as [-> | Hne]; [tauto |].
  rewrite IH by tauto. reflexivity.
Qed.

Lemma index_item (items : list string) (x : string) (i : nat) :
  index items x = Ok i -> item items i = Ok x.
Proof.
  intro H. unfold item. rewrite (index_nth _ _ _ H). reflexivity.
Qed.

Lemma item_In (items : list string) (x : string) (i : nat) :
  item items i = Ok x -> In x items.
Proof.
  unfold item. destruct (nth_error items i) as [s |] eqn:E;
    [| discriminate].
  intro H. injection H as <-. eapply nth_error_In; eauto.
Qed.

Lemma In_exons_or_junctions (locate : string -> option location)
    (triples : list triple) (self : JunctionAggregator) (x : string) :
  JunctionAggregator_init locate triples = Ok self ->
  (In x (items self) <->
   exists t, In t triples /\ (x = exon t \/ x = junction t)).
Proof.
  intro Hinit.
  pose proof (init_fields _ _ _ Hinit) as [_ [He [Hj [Hitems _]]]].
  rewrite Hitems, He, Hj. apply In_items.
Qed.

Lemma graph_edges (locate : string -> option location)
    (triples : list triple) (self : JunctionAggregator) :
  JunctionAggregator_init locate triples = Ok self ->
  (forall p, In p (upstream (graph self)) <->
             exists t, In t triples /\ row_up (items self) t p) /\
  (forall p, In p (downstream (graph self)) <->
             exists t, In t triples /\ row_down (items self) t p).
Proof.
  intro Hinit.
  pose proof (init_fields _ _ _ Hinit) as [_ [_ [_ [_ [_ Hg]]]]].
  apply store_rows_edges in Hg. destruct Hg as [Hu Hd].
  split; intro p; [rewrite Hu | rewrite Hd]; simpl; tauto.
Qed.


Lemma node_is_index (locate : string -> option location)
    (triples : list triple) (self : JunctionAggregator) (a b : nat) :
  JunctionAggregator_init locate triples = Ok self ->
  In (a, b) (upstream (graph self)) \/ In (a, b) (downstream (graph self)) ->
  exists x y, index (items self) x = Ok a /\ index (items self) y = Ok b.
Proof.
  intros Hinit H. destruct (graph_edges _ _ _ Hinit) as [Hu Hd].
  destruct H as [H | H]; [apply Hu in H | apply Hd in H];
    destruct H as [t [_ [ei [ji [He [Hj [[_ E] | [_ E]]]]]]]];
    injection E as -> ->; eauto.
Qed.

(** X7. In an aggregator that has been built, every exon and junction id
    of the table has a position in [items] that leads back to it, and its
    entry in [item_to_region] is a region of that name; and every node of
    the graph is the position [items.index] gives for the item stored
    there, also when an id occurs more than once in [items]. *)
Theorem items_round_trip (locate : string -> option location)
    (triples : list triple) (self : JunctionAggregator) :
  JunctionAggregator_init locate triples = Ok self ->
  (forall x, In x (exons self) \/ In x (junctions self) ->
     exists i r,
       index (items self) x = Ok i /\ item (items self) i = Ok x /\
       loc (item_to_region self) x = Ok r /\ name r = x) /\
  (forall a rel b, has_edge (graph self) a rel b ->
     exists x y,
       item (items self) a = Ok x /\ index (items self) x = Ok a /\
       item (items self) b = Ok y /\ index (items self) y = Ok b).
Proof.
  intro Hinit.
  pose proof (init_fields _ _ _ Hinit) as [_ [_ [_ [Hitems [Hseries _]]]]].
  split.
  - intros x Hx.
    assert (Hin : In x (items self))
      by (rewrite Hitems; apply in_or_app; exact Hx).
    destruct (index_In_ok _ _ Hin) as [i Hi].
    destruct (loc_ok _ _ _ Hseries x Hin) as [r [Hr Hname]].
    exists i, r. split; [exact Hi |]. split; [| auto].
    apply index_item. exact Hi.
  - intros a rel b Hedge.
    assert (H : In (a, b) (upstream (graph self)) \/
                In (a, b) (downstream (graph self)))
      by (destruct Hedge as [[_ H] | [_ H]]; auto).
    destruct (node_is_index _ _ _ a b Hinit H) as [x [y [Hx Hy]]].
    exists x, y. repeat split; auto using index_item.
Qed.

Lemma items_round_trip_witness :
  exists self,
    JunctionAggregator_init parse_location scenario_triples = Ok self /\
    (forall x, In x (exons self) \/ In x (junctions self) ->
       exists i r,
         index (items self) x = Ok i /\ item (items self) i = Ok x /\
         loc (item_to_region self) x = Ok r /\ name r = x) /\
    (forall a rel b, has_edge (graph self) a rel b ->
       exists x y,
         item (items self) a = Ok x /\ index (items self) x = Ok a /\
         item (items self) b = Ok y /\ index (items self) y = Ok b).
Proof.
  eexists. split; [vm_compute; reflexivity |].
  exact (items_round_trip parse_location scenario_triples _ eq_refl).
Defined.

(** ** The per-exon checks *)

Lemma se_exon1_completes (locate : string -> option location)
    (triples : list triple) (self : JunctionAggregator)
    (exon1_name : string) (events : event_dict) :
  JunctionAggregator_init locate triples = Ok self ->
  In exon1_name (items self) ->
  exists events', se_exon1 self events exon1_name = Ok events'.
Proof.
  intros Hinit Hin. unfold se_exon1.
  destruct (index_In_ok _ _ Hin) as [exon1_i H1]. rewrite H1. simpl.
  destruct (regions_of_ok locate triples self Hinit
              (traverse (upstream (graph self))
                 (select_src (downstream (graph self)) exon1_i)))
    as [regions [Hr Hnames]];
    [apply (traverse_below locate triples self Hinit); auto |].
  rewrite Hr. simpl.
  apply (pairs_complete self); [| exact Hnames].
  intros. apply (se_pair_completes locate triples self Hinit); assumption.
Qed.

Lemma mxe_exon1_completes (locate : string -> option location)
    (triples : list triple) (self : JunctionAggregator)
    (exon1_name : string) (events : event_dict) :
  JunctionAggregator_init locate triples = Ok self ->
  In exon1_name (items self) ->
  exists events', mxe_exon1 self events exon1_name = Ok events'.
Proof.
  intros Hinit Hin. unfold mxe_exon1.
  destruct (index_In_ok _ _ Hin) as [exon1_i H1]. rewrite H1. simpl.
  match goal with
  | |- context [regions_of self ?q] =>
      destruct (regions_of_ok locate triples self Hinit q)
        as [regions [Hr Hnames]]
  end.
  { intros x Hx. unfold set_and in Hx. apply filter_In in Hx.
    destruct Hx as [Hx _]. apply In_set_of in Hx.
    revert x Hx. apply (traverse_below locate triples self Hinit). auto. }
  rewrite Hr. simpl.
  apply (pairs_complete self); [| exact Hnames].
  intros. apply mxe_pair_completes; assumption.
Qed.

(** X8. On an aggregator that has been built, [_check_exon_in_se_event]
    and [_check_exon_in_mxe_event] return a dict of events for every id
    of the triple table, exon or junction, and raise [ValueError] (from
    [items.index]) for every other name. *)
Theorem check_exon_raises_on_unknown_name
    (locate : string -> option location) (triples : list triple)
    (self : JunctionAggregator) (exon1_name : string) :
  JunctionAggregator_init locate triples = Ok self ->
  ((exists t, In t triples /\
              (exon1_name = exon t \/ exon1_name = junction t)) ->
   (exists event, _check_exon_in_se_event self exon1_name = Ok event) /\
   (exists event, _check_exon_in_mxe_event self exon1_name = Ok event)) /\
  (~ (exists t, In t triples /\
                (exon1_name = exon t \/ exon1_name = junction t)) ->
   _check_exon_in_se_event self exon1_name = Raise ValueError /\
   _check_exon_in_mxe_event self exon1_name = Raise ValueError).
Proof.
  intro Hinit. rewrite <- (In_exons_or_junctions _ _ _ exon1_name Hinit).
  split; intro Hin.
  - split.
    + apply (se_exon1_completes locate triples); assumption.
    + apply (mxe_exon1_completes locate triples); assumption.
  - unfold _check_exon_in_se_event, _check_exon_in_mxe_event,
      se_exon1, mxe_exon1.
    rewrite (index_not_In _ _ Hin). simpl. auto.
Qed.

Lemma check_exon_raises_on_unknown_name_witness :
  exists self,
    JunctionAggregator_init parse_location scenario_triples = Ok self /\
    _check_exon_in_se_event self exonD = Raise ValueError /\
    _check_exon_in_mxe_event self exonD = Raise ValueError.
Proof.
  eexists. split; [vm_compute; reflexivity |].
  apply (proj2 (check_exon_raises_on_unknown_name parse_location
                  scenario_triples _ exonD eq_refl)).
  intros [t [Ht Hx]]. simpl in Ht.
  repeat (destruct Ht as [<- | Ht];
          [destruct Hx as [Hx | Hx]; vm_compute in Hx; discriminate Hx |]).
  contradiction.
Defined.

(** ** The detectors and the per-exon checks *)

Lemma key_eqb_eq (k1 k2 : list string) : key_eqb k1 k2 = true <-> k1 = k2.
Proof.
  unfold key_eqb. destruct (list_eq_dec string_dec k1 k2); split;
    congruence.
Qed.

Lemma dict_set_app (base d : event_dict) (k v : list string) :
  (forall k' v', In (k', v') base -> k' <> k) ->
  dict_set (base ++ d) k v = base ++ dict_set d k v.
Proof.
  induction base as [| [k0 v0] base IH]; simpl; intro Hb; [reflexivity |].
  destruct (key_eqb k0 k) eqn:E.
  - apply key_eqb_eq in E. exfalso. apply (Hb k0 v0); auto.
  - rewrite IH; [reflexivity |]. intros k' v' Hin. apply (Hb k' v'). auto.
Qed.

Lemma dict_set_keys (d : event_dict) (k v : list string) :
  map fst (dict_set d k v)
  = if existsb (fun k' => key_eqb k' k) (map fst d) then map fst d
    else map fst d ++ [k].
Proof.
  induction d as [| [k0 v0] d IH]; simpl; [reflexivity |].
  destruct (key_eqb k0 k) eqn:E; simpl; [reflexivity |].
  rewrite IH. destruct (existsb _ (map fst d)); reflexivity.
Qed.

Lemma NoDup_dict_set (d : event_dict) (k v : list string) :
  NoDup (map fst d) -> NoDup (map fst (dict_set d k v)).
Proof.
  intro Hnd. rewrite dict_set_keys.
  destruct (existsb _ (map fst d)) eqn:E; [exact Hnd |].
  apply NoDup_app; [exact Hnd | repeat constructor; simpl; tauto |].
  intros x Hx [E0 | []]. subst x.
  assert (Hex : existsb (fun k' => key_eqb k' k) (map fst d) = true).
  { apply existsb_exists. exists k. split; [exact Hx |].
    apply key_eqb_eq. reflexivity. }
  congruence.
Qed.

Lemma foldM_frame (A : Type)
    (step : event_dict -> A -> result event_dict) (exon1_name : string)
    (base : event_dict) :
  pair_step A step exon1_name ->
  (forall k v, In (k, v) base -> hd_error k <> Some exon1_name) ->
  forall l d,
    foldM step (base ++ d) l = (d' <- foldM step d l ;; Ok (base ++ d')).
Proof.
  intros Hstep Hbase.
  induction l as [| p l IH]; simpl; intro d; [reflexivity |].
  destruct (Hstep p) as [H | [[e H] | [k [v H]]]]; rewrite !H; simpl.
  - apply IH.
  - reflexivity.
  - rewrite dict_set_app; [apply IH |].
    intros k' v' Hin ->. apply (Hbase _ _ Hin). reflexivity.
Qed.

Lemma foldM_heads (A : Type)
    (step : event_dict -> A -> result event_dict) (exon1_name : string) :
  pair_step A step exon1_name ->
  forall l d d',
    (forall k v, In (k, v) d -> hd_error k = Some exon1_name) ->
    foldM step d l = Ok d' ->
    forall k v, In (k, v) d' -> hd_error k = Some exon1_name.
Proof.
  intros Hstep l d d' Hd H.
  refine (foldM_invariant step
            (fun d => forall k v, In (k, v) d ->
                                  hd_error k = Some exon1_name)
            l _ d d' Hd H).
  intros s p s' _ Hs Hp k v Hin.
  destruct (Hstep p) as [E | [[e E] | [k0 [v0 E]]]]; rewrite E in Hp.
  - injection Hp as <-. eauto.
  - discriminate Hp.
  - injection Hp as <-. apply In_dict_set in Hin.
    destruct Hin as [E0 | Hin];
      [injection E0 as -> ->; reflexivity | eauto].
Qed.

Lemma se_pair_step (self : JunctionAggregator) (exon1_name : string)
    (exon1_i : nat) :
  pair_step _ (se_pair self exon1_name exon1_i) exon1_name.
Proof.
  intros [exon_a exon_b]. unfold se_pair.
  destruct (negb (overlaps exon_a exon_b)); [| left; reflexivity].
  destruct (index (items self) (name (min_by_start exon_a exon_b)))
    as [exon2_i | e]; [| right; left; exists e; reflexivity].
  destruct (index (items self) (name (max_by_start exon_a exon_b)))
    as [exon3_i | e]; [| right; left; exists e; reflexivity].
  simpl.
  destruct (mapM (item (items self)) (set_of _)) as [names | e];
    [| right; left; exists e; reflexivity].
  simpl. destruct (Nat.ltb 0 (List.length names)); [| left; reflexivity].
  destruct (mapM (item (items self)) _) as [junctions | e];
    [| right; left; exists e; reflexivity].
  right. right. eexists. eexists. intro events. simpl. reflexivity.
Qed.

Lemma mxe_pair_step (self : JunctionAggregator) (exon1_name : string)
    (exon1_i : nat) :
  pair_step _ (mxe_pair self exon1_name exon1_i) exon1_name.
Proof.
  intros [exon_a exon_b]. unfold mxe_pair.
  destruct (negb (overlaps exon_a exon_b)); [| left; reflexivity].
  destruct (index (items self) (name (min_by_start exon_a exon_b)))
    as [exon2_i | e]; [| right; left; exists e; reflexivity].
  destruct (index (items self) (name (max_by_start exon_a exon_b)))
    as [exon3_i | e]; [| right; left; exists e; reflexivity].
  simpl. unfold mxe_try.
  destruct (pop (common_exon4 self exon2_i exon3_i)) as [exon4_i | e];
    [| left; reflexivity].
  simpl. destruct (item (items self) exon4_i) as [exon4_name | e];
    [| left; reflexivity].
  simpl. destruct (mapM (item (items self)) _) as [junctions | e];
    [| left; reflexivity].
  right. right. eexists. eexists. intro events. simpl. reflexivity.
Qed.

Lemma exon1_frame
    (check : event_dict -> string -> result event_dict)
    (base : event_dict) (exon1_name : string) :
  (exists (A : Type) (step : nat -> event_dict -> A -> result event_dict)
          (candidates : nat -> result (list A)) (position : result nat),
     (forall i, pair_step A (step i) exon1_name) /\
     forall events,
       check events exon1_name
       = (exon1_i <- position ;;
          l <- candidates exon1_i ;;
          foldM (step exon1_i) events l)) ->
  (forall k v, In (k, v) base -> hd_error k <> Some exon1_name) ->
  check base exon1_name
  = (d' <- check [] exon1_name ;; Ok (base ++ d')) /\
  forall d', check [] exon1_name = Ok d' ->
             forall k v, In (k, v) d' -> hd_error k = Some exon1_name.
Proof.
  intros [A [step [candidates [position [Hstep Hcheck]]]]] Hbase.
  rewrite !Hcheck. destruct position as [exon1_i | e]; simpl;
    [| split; [reflexivity | discriminate]].
  destruct (candidates exon1_i) as [l | e]; simpl;
    [| split; [reflexivity | discriminate]].
  split.
  - rewrite <- (app_nil_r base) at 1.
    apply (foldM_frame A (step exon1_i) exon1_name base (Hstep exon1_i)
             Hbase).
  - intros d'. apply (foldM_heads A (step exon1_i) exon1_name (Hstep _)).
    intros k v [].
Qed.

Lemma se_exon1_shape (self : JunctionAggregator) (exon1_name : string) :
  exists (A : Type) (step : nat -> event_dict -> A -> result event_dict)
         (candidates : nat -> result (list A)) (position : result nat),
    (forall i, pair_step A (step i) exon1_name) /\
    forall events,
      se_exon1 self events exon1_name
      = (exon1_i <- position ;;
         l <- candidates exon1_i ;;
         foldM (step exon1_i) events l).
Proof.
  exists (Region * Region)%type, (se_pair self exon1_name),
    (fun exon1_i =>
       exon23s <- regions_of self
                    (traverse (upstream (graph self))
                       (select_src (downstream (graph self)) exon1_i)) ;;
       Ok (combinations2 exon23s)),
    (index (items self) exon1_name).
  split; [apply se_pair_step |].
  intro events. unfold se_exon1.
  destruct (index (items self) exon1_name); simpl; [| reflexivity].
  destruct (regions_of self _); reflexivity.
Qed.

Lemma mxe_exon1_shape (self : JunctionAggregator) (exon1_name : string) :
  exists (A : Type) (step : nat -> event_dict -> A -> result event_dict)
         (candidates : nat -> result (list A)) (position : result nat),
    (forall i, pair_step A (step i) exon1_name) /\
    forall events,
      mxe_exon1 self events exon1_name
      = (exon1_i <- position ;;
         l <- candidates exon1_i ;;
         foldM (step exon1_i) events l).
Proof.
  exists (Region * Region)%type, (mxe_pair self exon1_name),
    (fun exon1_i =>
       let up := upstream (graph self) in
       let down := downstream (graph self) in
       let exon23s_from1 := traverse up (select_src down exon1_i) in
       let exon4s :=
         traverse up (traverse up (traverse up (select_src down exon1_i)))
       in
       let exon23s_from4 := traverse down (traverse down exon4s) in
       exon23s <- regions_of self
                    (set_and (set_of exon23s_from4)
                             (set_of exon23s_from1)) ;;
       Ok (combinations2 exon23s)),
    (index (items self) exon1_name).
  split; [apply mxe_pair_step |].
  intro events. unfold mxe_exon1.
  destruct (index (items self) exon1_name); simpl; [| reflexivity].
  destruct (regions_of self _); reflexivity.
Qed.

Lemma loop_by_exon
    (check : event_dict -> string -> result event_dict) :
  (forall base exon1_name,
     (forall k v, In (k, v) base -> hd_error k <> Some exon1_name) ->
     check base exon1_name
     = (d' <- check [] exon1_name ;; Ok (base ++ d')) /\
     forall d', check [] exon1_name = Ok d' ->
                forall k v, In (k, v) d' -> hd_error k = Some exon1_name) ->
  forall l, NoDup l ->
  forall acc,
    (forall k v x, In (k, v) acc -> In x l -> hd_error k <> Some x) ->
    foldM check acc l
    = (per <- mapM (check []) l ;; Ok (acc ++ List.concat per)).
Proof.
  intros Hcheck l Hnd. induction Hnd as [| x l Hx Hnd IH]; intros acc Hacc.
  - simpl. rewrite app_nil_r. reflexivity.
  - simpl.
    destruct (Hcheck acc x) as [Hframe Hheads].
    { intros k v Hin. apply (Hacc k v x Hin). simpl. auto. }
    rewrite Hframe. destruct (check [] x) as [d1 | e] eqn:E1; simpl;
      [| reflexivity].
    rewrite IH.
    + destruct (mapM (check []) l); simpl; [| reflexivity].
      rewrite app_assoc. reflexivity.
    + intros k v y Hin Hy. apply in_app_or in Hin.
      destruct Hin as [Hin | Hin].
      * apply (Hacc k v y Hin). simpl. auto.
      * rewrite (Hheads d1 eq_refl k v Hin). intro E.
        injection E as ->. contradiction.
Qed.

Lemma skipped_exon_events_by_exon (self : JunctionAggregator) :
  NoDup (exons self) ->
  skipped_exon_events self
  = (per <- mapM (_check_exon_in_se_event self) (exons self) ;;
     Ok (List.concat per)).
Proof.
  intro Hnd. unfold skipped_exon_events.
  rewrite (loop_by_exon (se_exon1 self)); [reflexivity | | exact Hnd |].
  - intros base x. apply exon1_frame. apply se_exon1_shape.
  - intros k v x [].
Qed.

Lemma mutually_exclusive_exon_events_by_exon (self : JunctionAggregator) :
  NoDup (exons self) ->
  mutually_exclusive_exon_events self
  = (per <- mapM (_check_exon_in_mxe_event self) (exons self) ;;
     Ok (List.concat per)).
Proof.
  intro Hnd. unfold mutually_exclusive_exon_events.
  rewrite (loop_by_exon (mxe_exon1 self)); [reflexivity | | exact Hnd |].
  - intros base x. apply exon1_frame. apply mxe_exon1_shape.
  - intros k v x [].
Qed.

Lemma NoDup_exons (locate : string -> option location)
    (triples : list triple) (self : JunctionAggregator) :
  JunctionAggregator_init locate triples = Ok self -> NoDup (exons self).
Proof.
  intro Hinit.
  pose proof (init_fields _ _ _ Hinit) as [_ [He _]].
  rewrite He. apply unique_spec.
Qed.

(** X9. Each detector finds exactly what its per-exon check finds:
    [skipped_exon] returns the table of the events that
    [_check_exon_in_se_event] gives for the exons of the triple table,
    taken one exon after the other, and raises what the first failing
    check raises; [mutually_exclusive_exon] does the same with
    [_check_exon_in_mxe_event]. *)
Theorem detectors_collect_the_per_exon_checks
    (locate : string -> option location) (triples : list triple)
    (self : JunctionAggregator) :
  JunctionAggregator_init locate triples = Ok self ->
  skipped_exon self
  = (per <- mapM (_check_exon_in_se_event self) (exons self) ;;
     event_dict_to_df (List.concat per) ["exon1"; "exon2"; "exon3"]
       ["junction12"; "junction23"; "junction13"]) /\
  mutually_exclusive_exon self
  = (per <- mapM (_check_exon_in_mxe_event self) (exons self) ;;
     event_dict_to_df (List.concat per)
       ["exon1"; "exon2"; "exon3"; "exon4"]
       ["junction13"; "junction34"; "junction12"; "junction24"]).
Proof.
  intro Hinit. pose proof (NoDup_exons _ _ _ Hinit) as Hnd.
  unfold skipped_exon, mutually_exclusive_exon.
  rewrite (skipped_exon_events_by_exon self Hnd),
    (mutually_exclusive_exon_events_by_exon self Hnd).
  split.
  - destruct (mapM (_check_exon_in_se_event self) (exons self));
      reflexivity.
  - destruct (mapM (_check_exon_in_mxe_event self) (exons self));
      reflexivity.
Qed.

Lemma detectors_collect_the_per_exon_checks_witness :
  exists self,
    JunctionAggregator_init parse_location scenario_triples = Ok self /\
    skipped_exon self
    = (per <- mapM (_check_exon_in_se_event self) (exons self) ;;
       event_dict_to_df (List.concat per) ["exon1"; "exon2"; "exon3"]
         ["junction12"; "junction23"; "junction13"]) /\
    mutually_exclusive_exon self
    = (per <- mapM (_check_exon_in_mxe_event self) (exons self) ;;
       event_dict_to_df (List.concat per)
         ["exon1"; "exon2"; "exon3"; "exon4"]
         ["junction13"; "junction34"; "junction12"; "junction24"]).
Proof.
  eexists. split; [vm_compute; reflexivity |].
  exact (detectors_collect_the_per_exon_checks parse_location
           scenario_triples _ eq_refl).
Defined.

(** ** What a recorded event holds *)




Lemma se_pair_inv (self : JunctionAggregator) (exon1_name : string)
    (exon1_i : nat) (events events' : event_dict) (exon_a exon_b : Region) :
  se_pair self exon1_name exon1_i events (exon_a, exon_b) = Ok events' ->
  events' = events \/
  exists exon2_i exon3_i names junctions,
    index (items self) (name (min_by_start exon_a exon_b)) = Ok exon2_i /\
    index (items self) (name (max_by_start exon_a exon_b)) = Ok exon3_i /\
    mapM (item (items self))
      (set_of (intersection
                 (select_dst (upstream (graph self)) exon2_i)
                 (select_src (upstream (graph self)) exon3_i)))
    = Ok names /\
    0 < List.length names /\
    mapM (item (items self))
      (intersection (select_dst (upstream (graph self)) exon1_i)
                    (select_dst (downstream (graph self)) exon2_i) ++
       intersection (select_dst (upstream (graph self)) exon2_i)
                    (select_dst (downstream (graph self)) exon3_i) ++
       intersection (select_dst (upstream (graph self)) exon1_i)
                    (select_dst (downstream (graph self)) exon3_i))
    = Ok junctions /\
    events' = dict_set events
                [exon1_name; name (min_by_start exon_a exon_b);
                 name (max_by_start exon_a exon_b)] junctions.
Proof.
  unfold se_pair. intro H.
  destruct (negb (overlaps exon_a exon_b));
    [| injection H as <-; auto].
  inv_bind H. inv_bind H. inv_bind H.
  destruct (Nat.ltb 0 (List.length v1)) eqn:Hlen;
    [| injection H as <-; auto].
  inv_bind H. injection H as <-. right.
  exists v, v0, v1, v2. apply Nat.ltb_lt in Hlen. auto 10.
Qed.

Lemma mxe_pair_inv (self : JunctionAggregator) (exon1_name : string)
    (exon1_i : nat) (events events' : event_dict) (exon_a exon_b : Region) :
  mxe_pair self exon1_name exon1_i events (exon_a, exon_b) = Ok events' ->
  events' = events \/
  exists exon2_i exon3_i exon4_i exon4_name junctions,
    index (items self) (name (min_by_start exon_a exon_b)) = Ok exon2_i /\
    index (items self) (name (max_by_start exon_a exon_b)) = Ok exon3_i /\
    pop (common_exon4 self exon2_i exon3_i) = Ok exon4_i /\
    item (items self) exon4_i = Ok exon4_name /\
    mapM (item (items self))
      (intersection (select_dst (upstream (graph self)) exon1_i)
                    (select_dst (downstream (graph self)) exon3_i) ++
       intersection (select_dst (upstream (graph self)) exon3_i)
                    (select_dst (downstream (graph self)) exon4_i) ++
       intersection (select_dst (upstream (graph self)) exon1_i)
                    (select_dst (downstream (graph self)) exon2_i) ++
       intersection (select_dst (upstream (graph self)) exon2_i)
                    (select_dst (downstream (graph self)) exon4_i))
    = Ok junctions /\
    events' = dict_set events
                [exon1_name; name (min_by_start exon_a exon_b);
                 name (max_by_start exon_a exon_b); exon4_name] junctions.
Proof.
  unfold mxe_pair. intro H.
  destruct (negb (overlaps exon_a exon_b));
    [| injection H as <-; auto].
  inv_bind H. inv_bind H.
  destruct (mxe_try self exon1_name exon1_i events _ _ v v0) as [ev | e]
    eqn:Htry; [| injection H as <-; auto].
  injection H as <-. unfold mxe_try in Htry.
  inv_bind Htry. inv_bind Htry. inv_bind Htry. injection Htry as <-.
  right. exists v, v0, v1, v2, v3. auto 10.
Qed.

Section RecordedEvents.

Variable locate : string -> option location.
Variable triples : list triple.
Variable self : JunctionAggregator.
Hypothesis Hinit : JunctionAggregator_init locate triples = Ok self.

Local Abbreviation up := (upstream (graph self)).
Local Abbreviation down := (downstream (graph self)).














End RecordedEvents.

(** ** From the dict of events to the table *)



Lemma set_cells_In (names values cells : list string) :
  set_cells names values = Ok cells ->
  forall x, In x cells -> In x values.
Proof.
  unfold set_cells.
  destruct (Nat.eqb (List.length values) (List.length names)).
  - intro H. injection H as <-. auto.
  - destruct values as [| v [| w rest]]; try discriminate.
    intro H. injection H as <-. intros x Hx.
    apply repeat_spec in Hx. subst. simpl. auto.
Qed.

Lemma event_dict_to_df_keys (events : event_dict)
    (exon_names junction_names : list string) (rows : list event_row) :
  (forall k v, In (k, v) events ->
               List.length k = List.length exon_names) ->
  event_dict_to_df events exon_names junction_names = Ok rows ->
  map row_exons rows = map fst events.
Proof.
  unfold event_dict_to_df. revert rows.
  induction events as [| [k v] events IH]; simpl; intros rows Hk H.
  - injection H as <-. reflexivity.
  - inv_bind H. inv_bind H. injection H as <-.
    inv_bind Hv. inv_bind Hv. injection Hv as <-. simpl.
    unfold set_cells in Hv1.
    rewrite (Hk k v (or_introl eq_refl)), Nat.eqb_refl in Hv1.
    injection Hv1 as <-. f_equal. apply IH; [| exact Hv0].
    intros k' v' Hin. apply (Hk k' v'). auto.
Qed.

(** ** No event twice *)

Lemma pairs_NoDup (A : Type)
    (step : event_dict -> A -> result event_dict) (exon1_name : string) :
  pair_step A step exon1_name ->
  forall l d d',
    NoDup (map fst d) -> foldM step d l = Ok d' -> NoDup (map fst d').
Proof.
  intros Hstep l d d' Hd H.
  refine (foldM_invariant step (fun d => NoDup (map fst d)) l _ d d' Hd H).
  intros s p s' _ Hs Hp.
  destruct (Hstep p) as [E | [[e E] | [k0 [v0 E]]]]; rewrite E in Hp.
  - injection Hp as <-. exact Hs.
  - discriminate Hp.
  - injection Hp as <-. apply NoDup_dict_set. exact Hs.
Qed.

Lemma loop_NoDup
    (check : event_dict -> string -> result event_dict) (l : list string) :
  (forall exon1_name,
     exists (A : Type) (step : nat -> event_dict -> A -> result event_dict)
            (candidates : nat -> result (list A)) (position : result nat),
       (forall i, pair_step A (step i) exon1_name) /\
       forall events,
         check events exon1_name
         = (exon1_i <- position ;;
            l <- candidates exon1_i ;;
            foldM (step exon1_i) events l)) ->
  forall events, foldM check [] l = Ok events -> NoDup (map fst events).
Proof.
  intros Hshape events H.
  refine (foldM_invariant check (fun d => NoDup (map fst d)) l _ []
            events _ H); [| constructor].
  intros s x s' _ Hs Hp.
  destruct (Hshape x) as [A [step [candidates [position [Hstep Hcheck]]]]].
  rewrite Hcheck in Hp. inv_bind Hp. inv_bind Hp.
  exact (pairs_NoDup A (step v) x (Hstep v) v0 s s' Hs Hp).
Qed.

(** X10. No detector reports an event twice: in the table returned by
    [skipped_exon] or [mutually_exclusive_exon], no two rows hold the
    same exons. *)
Theorem detector_rows_have_distinct_exons
    (locate : string -> option location) (triples : list triple)
    (self : JunctionAggregator) (rows : list event_row) :
  JunctionAggregator_init locate triples = Ok self ->
  skipped_exon self = Ok rows \/ mutually_exclusive_exon self = Ok rows ->
  NoDup (map row_exons rows).
Proof.
  intros Hinit [H | H].
  - unfold skipped_exon in H. inv_bind H.
    pose proof (skipped_exon_events_ok _ _ _ Hinit _ Hv) as Hev.
    assert (Hk : forall k v0, In (k, v0) v ->
                   List.length k
                   = List.length ["exon1"; "exon2"; "exon3"])
      by (intros k v0 Hin; apply (Hev k v0 Hin)).
    rewrite (event_dict_to_df_keys _ _ _ _ Hk H).
    exact (loop_NoDup (se_exon1 self) (exons self) (se_exon1_shape self)
             v Hv).
  - unfold mutually_exclusive_exon in H. inv_bind H.
    pose proof (mutually_exclusive_exon_events_ok _ _ _ Hinit _ Hv) as Hev.
    assert (Hk : forall k v0, In (k, v0) v ->
                   List.length k
                   = List.length ["exon1"; "exon2"; "exon3"; "exon4"])
      by (intros k v0 Hin; apply (Hev k v0 Hin)).
    rewrite (event_dict_to_df_keys _ _ _ _ Hk H).
    exact (loop_NoDup (mxe_exon1 self) (exons self) (mxe_exon1_shape self)
             v Hv).
Qed.

Lemma detector_rows_have_distinct_exons_witness :
  exists self rows,
    JunctionAggregator_init parse_location mxe_triples = Ok self /\
    mutually_exclusive_exon self = Ok rows /\
    NoDup (map row_exons rows).
Proof.
  pose (self :=
          match JunctionAggregator_init parse_location mxe_triples with
          | Ok a => a
          | Raise _ => mkAggregator [] connect [] [] [] []
          end).
  pose (rows := match mutually_exclusive_exon self with
                | Ok r => r
                | Raise _ => []
                end).
  assert (Hinit : JunctionAggregator_init parse_location mxe_triples
                  = Ok self)
    by (vm_compute; reflexivity).
  assert (Hrun : mutually_exclusive_exon self = Ok rows)
    by (vm_compute; reflexivity).
  exists self, rows. split; [exact Hinit |]. split; [exact Hrun |].
  exact (detector_rows_have_distinct_exons parse_location mxe_triples
           self rows Hinit (or_intror Hrun)).
Defined.

(** ** When a detector returns its table *)





(** ** Where the ids of a row come from *)

Lemma index_Ok_In (items : list string) (x : string) (i : nat) :
  index items x = Ok i -> In x items.
Proof.
  intro H. apply index_nth in H. eapply nth_error_In; eauto.
Qed.

Lemma mapM_item_In (items : list string) (q : list nat)
    (names : list string) :
  mapM (item items) q = Ok names -> forall x, In x names -> In x items.
Proof.
  intros H x Hx. destruct (mapM_In _ _ _ H x Hx) as [i [_ Hi]].
  eapply item_In; eauto.
Qed.

Lemma se_pair_ids (self : JunctionAggregator) (exon1_name : string)
    (exon1_i : nat) (events events' : event_dict) (p : Region * Region) :
  In exon1_name (exons self) -> In exon1_name (items self) ->
  Forall (ids_known self) events ->
  se_pair self exon1_name exon1_i events p = Ok events' ->
  Forall (ids_known self) events'.
Proof.
  intros He Hi Hev H. destruct p as [exon_a exon_b].
  apply se_pair_inv in H.
  destruct H as [-> | [exon2_i [exon3_i [names [junctions
                   [H2 [H3 [_ [_ [Hj ->]]]]]]]]]]; [exact Hev |].
  apply Forall_forall. intros [k v] Hin. apply In_dict_set in Hin.
  destruct Hin as [E | Hin];
    [| rewrite Forall_forall in Hev; exact (Hev _ Hin)].
  injection E as -> ->. split.
  - simpl. intros x [[<- | [<- | [<- | []]]] | Hx];
      eauto using index_Ok_In, mapM_item_In.
  - exists exon1_name. simpl. auto.
Qed.

Lemma mxe_pair_ids (self : JunctionAggregator) (exon1_name : string)
    (exon1_i : nat) (events events' : event_dict) (p : Region * Region) :
  In exon1_name (exons self) -> In exon1_name (items self) ->
  Forall (ids_known self) events ->
  mxe_pair self exon1_name exon1_i events p = Ok events' ->
  Forall (ids_known self) events'.
Proof.
  intros He Hi Hev H. destruct p as [exon_a exon_b].
  apply mxe_pair_inv in H.
  destruct H as [-> | [exon2_i [exon3_i [exon4_i [exon4_name [junctions
                   [H2 [H3 [_ [H4 [Hj ->]]]]]]]]]]]; [exact Hev |].
  apply Forall_forall. intros [k v] Hin. apply In_dict_set in Hin.
  destruct Hin as [E | Hin];
    [| rewrite Forall_forall in Hev; exact (Hev _ Hin)].
  injection E as -> ->. split.
  - simpl. intros x [[<- | [<- | [<- | [<- | []]]]] | Hx];
      eauto using index_Ok_In, mapM_item_In, item_In.
  - exists exon1_name. simpl. auto.
Qed.

Lemma skipped_exon_events_ids (self : JunctionAggregator)
    (events : event_dict) :
  skipped_exon_events self = Ok events -> Forall (ids_known self) events.
Proof.
  unfold skipped_exon_events. intro H.
  refine (foldM_invariant (se_exon1 self) (Forall (ids_known self))
            (exons self) _ [] events (Forall_nil _) H).
  intros s exon1_name s' He Hs Hp. unfold se_exon1 in Hp.
  inv_bind Hp. inv_bind Hp.
  refine (foldM_invariant (se_pair self exon1_name v)
            (Forall (ids_known self)) (combinations2 v0) _ s s' Hs Hp).
  intros d p d' _ Hd Hstep.
  exact (se_pair_ids self exon1_name v d d' p He (index_Ok_In _ _ _ Hv)
           Hd Hstep).
Qed.

Lemma mutually_exclusive_exon_events_ids (self : JunctionAggregator)
    (events : event_dict) :
  mutually_exclusive_exon_events self = Ok events ->
  Forall (ids_known self) events.
Proof.
  unfold mutually_exclusive_exon_events. intro H.
  refine (foldM_invariant (mxe_exon1 self) (Forall (ids_known self))
            (exons self) _ [] events (Forall_nil _) H).
  intros s exon1_name s' He Hs Hp. unfold mxe_exon1 in Hp.
  inv_bind Hp. inv_bind Hp.
  refine (foldM_invariant (mxe_pair self exon1_name v)
            (Forall (ids_known self)) (combinations2 v0) _ s s' Hs Hp).
  intros d p d' _ Hd Hstep.
  exact (mxe_pair_ids self exon1_name v d d' p He (index_Ok_In _ _ _ Hv)
           Hd Hstep).
Qed.

Lemma event_dict_to_df_ids (self : JunctionAggregator)
    (events : event_dict) (exon_names junction_names : list string)
    (rows : list event_row) (row : event_row) :
  Forall (ids_known self) events ->
  (forall k v, In (k, v) events ->
               List.length k = List.length exon_names) ->
  event_dict_to_df events exon_names junction_names = Ok rows ->
  In row rows ->
  (forall x, In x (row_exons row) \/ In x (row_junctions row) ->
             In x (items self)) /\
  (exists x, hd_error (row_exons row) = Some x /\ In x (exons self)).
Proof.
  intros Hev Hlen H Hrow. unfold event_dict_to_df in H.
  destruct (mapM_In _ _ _ H row Hrow) as [[k v] [Hin Hk]].
  rewrite Forall_forall in Hev. destruct (Hev _ Hin) as [Hids Hhd].
  inv_bind Hk. inv_bind Hk. injection Hk as <-.
  rename v0 into es, Hv into Hes, v1 into js, Hv0 into Hjs.
  simpl in *. unfold set_cells in Hes.
  rewrite (Hlen k v Hin), Nat.eqb_refl in Hes. injection Hes as <-.
  split; [| exact Hhd].
  intros x [Hx | Hx]; [auto |].
  apply Hids. right. exact (set_cells_In _ _ _ Hjs x Hx).
Qed.

(** X13. The detectors invent no ids: every exon and junction in a row
    returned by [skipped_exon] or [mutually_exclusive_exon] is an exon or
    junction id of the triple table, and the [exon1] of the row is an id
    of the table's [exon] column. *)
Theorem detector_rows_use_ids_of_the_table
    (locate : string -> option location) (triples : list triple)
    (self : JunctionAggregator) (rows : list event_row) (row : event_row) :
  JunctionAggregator_init locate triples = Ok self ->
  skipped_exon self = Ok rows \/ mutually_exclusive_exon self = Ok rows ->
  In row rows ->
  (forall x, In x (row_exons row) \/ In x (row_junctions row) ->
             exists t, In t triples /\ (x = exon t \/ x = junction t)) /\
  (exists t, In t triples /\ hd_error (row_exons row) = Some (exon t)).
Proof.
  intros Hinit Hrun Hrow.
  assert (H : (forall x, In x (row_exons row) \/ In x (row_junctions row) ->
                         In x (items self)) /\
              (exists x, hd_error (row_exons row) = Some x /\
                         In x (exons self))).
  { destruct Hrun as [H | H].
    - unfold skipped_exon in H. inv_bind H.
      pose proof (skipped_exon_events_ok _ _ _ Hinit _ Hv) as Hev.
      refine (event_dict_to_df_ids self v ["exon1"; "exon2"; "exon3"] _
                rows row (skipped_exon_events_ids self v Hv) _ H Hrow).
      intros k v0 Hin. apply (Hev k v0 Hin).
    - unfold mutually_exclusive_exon in H. inv_bind H.
      pose proof (mutually_exclusive_exon_events_ok _ _ _ Hinit _ Hv)
        as Hev.
      refine (event_dict_to_df_ids self v
                ["exon1"; "exon2"; "exon3"; "exon4"] _
                rows row (mutually_exclusive_exon_events_ids self v Hv)
                _ H Hrow).
      intros k v0 Hin. apply (Hev k v0 Hin). }
  destruct H as [Hids [x [Hhd Hx]]]. split.
  - intros y Hy. apply (In_exons_or_junctions _ _ _ y Hinit). auto.
  - pose proof (init_fields _ _ _ Hinit) as [_ [He _]].
    rewrite He in Hx.
    apply (proj1 (proj2 (unique_spec (map exon triples)) x)) in Hx.
    apply in_map_iff in Hx.
    destruct Hx as [t [<- Ht]]. eauto.
Qed.

Lemma detector_rows_use_ids_of_the_table_witness :
  exists self row,
    JunctionAggregator_init parse_location mxe_triples = Ok self /\
    mutually_exclusive_exon self = Ok [row] /\
    (forall x, In x (row_exons row) \/ In x (row_junctions row) ->
               exists t, In t mxe_triples /\
                         (x = exon t \/ x = junction t)) /\
    (exists t, In t mxe_triples /\
               hd_error (row_exons row) = Some (exon t)).
Proof.
  pose (self :=
          match JunctionAggregator_init parse_location mxe_triples with
          | Ok a => a
          | Raise _ => mkAggregator [] connect [] [] [] []
          end).
  pose (row := mkRow [exonA; exonB; exonC; exonD]
                     [junctionAC; junctionCD; junctionAB; junctionBD]
                     (String.concat "@" [exonA; exonB; exonC; exonD])).
  assert (Hinit : JunctionAggregator_init parse_location mxe_triples
                  = Ok self)
    by (vm_compute; reflexivity).
  assert (Hrun : mutually_exclusive_exon self = Ok [row])
    by (vm_compute; reflexivity).
  exists self, row. split; [exact Hinit |]. split; [exact Hrun |].
  exact (detector_rows_use_ids_of_the_table parse_location mxe_triples
           self [row] row Hinit (or_intror Hrun) (or_introl eq_refl)).
Defined.

(** ** The whole ladder *)







Section Ladder.

Variable db : string -> option Feature.

Local Abbreviation features := (feature_of db).

Local Abbreviation annotated_rows df :=
  (filter (fun ir : nat * junction_event => has_transcripts (snd ir))
          (combine (labels df) df)).





End Ladder.


(** ** Features selected by an attribute *)

Lemma startswith_refl (x : string) : startswith x x = true.
Proof.
  unfold startswith. induction x as [| a x IH]; simpl; [reflexivity |].
  destruct (ascii_dec a a) as [_ | Hne]; [exact IH | contradiction].
Qed.

(** X16. Whatever [get_feature_attribute_with_value] yields,
    [get_feature_attribute_startswith_value] yields too, for the same
    features, attribute and value; and both yield only ids of features
    that have the attribute: a feature without it is passed over, and
    features that cannot be iterated yield nothing. *)
Theorem exact_value_is_a_prefix_match (feature : Type)
    (getitem : feature -> string -> option (list string))
    (id_of : feature -> string)
    (features : option (list feature)) (attribute value : string) :
  incl (get_feature_attribute_with_value feature getitem id_of
          features attribute value)
       (get_feature_attribute_startswith_value feature getitem id_of
          features attribute value) /\
  forall id,
    In id (get_feature_attribute_startswith_value feature getitem id_of
             features attribute value) ->
    exists fs f values y,
      features = Some fs /\ In f fs /\ id_of f = id /\
      getitem f attribute = Some values /\ In y values /\
      startswith y value = true.
Proof.
  unfold get_feature_attribute_with_value,
    get_feature_attribute_startswith_value.
  destruct features as [fs |]; [| split; [intros x [] | intros id []]].
  split.
  - intros id Hid. apply in_flat_map in Hid. destruct Hid as [f [Hf Hid]].
    apply in_flat_map. exists f. split; [exact Hf |].
    destruct (getitem f attribute) as [values |]; [| contradiction].
    destruct (existsb (String.eqb value) values) eqn:Hex;
      [| contradiction].
    apply existsb_exists in Hex. destruct Hex as [y [Hy E]].
    apply String.eqb_eq in E. subst y.
    assert (Hs : existsb (fun x => startswith x value) values = true)
      by (apply existsb_exists; exists value;
          split; [exact Hy | apply startswith_refl]).
    rewrite Hs. exact Hid.
  - intros id Hid. apply in_flat_map in Hid. destruct Hid as [f [Hf Hid]].
    destruct (getitem f attribute) as [values |] eqn:Hget;
      [| contradiction].
    destruct (existsb (fun x => startswith x value) values) eqn:Hex;
      [| contradiction].
    apply existsb_exists in Hex. destruct Hex as [y [Hy Hs]].
    destruct Hid as [<- | []]. exists fs, f, values, y. auto 10.
Qed.

(** ** Location strings *)

Lemma split_on_none (c : ascii) (s : string) :
  has_char c s = false -> split_on c s = [s].
Proof.
  induction s as [| a s IH]; simpl; intro H; [reflexivity |].
  apply orb_false_iff in H. destruct H as [Ha Hs].
  rewrite Ha, (IH Hs). reflexivity.
Qed.

Lemma split_on_app (c : ascii) (s1 s2 : string) :
  has_char c s1 = false ->
  split_on c (String.append s1 (String c s2)) = s1 :: split_on c s2.
Proof.
  induction s1 as [| a s1 IH]; simpl; intro H.
  - rewrite Ascii.eqb_refl. reflexivity.
  - apply orb_false_iff in H. destruct H as [Ha Hs].
    rewrite Ha, (IH Hs). reflexivity.
Qed.

Lemma string_append_assoc (s1 s2 s3 : string) :
  String.append (String.append s1 s2) s3
  = String.append s1 (String.append s2 s3).
Proof.
  induction s1 as [| a s1 IH]; simpl; [reflexivity |].
  rewrite IH. reflexivity.
Qed.

Lemma has_char_app (c : ascii) (s1 s2 : string) :
  has_char c (String.append s1 s2) = has_char c s1 || has_char c s2.
Proof.
  induction s1 as [| a s1 IH]; simpl; [reflexivity |].
  rewrite IH, orb_assoc. reflexivity.
Qed.

Lemma digit_char (k : nat) :
  k < 10 ->
  digit (ascii_of_nat (48 + k)) = Some (Z.of_nat k) /\
  Ascii.eqb (ascii_of_nat (48 + k)) ":" = false /\
  Ascii.eqb (ascii_of_nat (48 + k)) "-" = false.
Proof.
  intro H.
  do 10 (destruct k as [| k]; [vm_compute; auto |]). lia.
Qed.

Lemma mod10_digit (n : Z) :
  (0 <= n)%Z -> Z.to_nat (n mod 10) < 10 /\
                Z.of_nat (Z.to_nat (n mod 10)) = (n mod 10)%Z.
Proof.
  intro H. pose proof (Z.mod_pos_bound n 10 ltac:(lia)). lia.
Qed.

Lemma has_char_digits (c : ascii) (fuel : nat) :
  c = ":"%char \/ c = "-"%char ->
  forall n acc, (0 <= n)%Z ->
    has_char c (digits_of fuel n acc) = has_char c acc.
Proof.
  intro Hc. induction fuel as [| fuel IH]; intros n acc Hn; [reflexivity |].
  destruct (mod10_digit n Hn) as [Hk _].
  destruct (digit_char _ Hk) as [_ [Hcolon Hdash]].
  assert (Hd : Ascii.eqb (ascii_of_nat (48 + Z.to_nat (n mod 10))) c
               = false)
    by (destruct Hc as [-> | ->]; assumption).
  cbn [digits_of]. destruct (n <? 10)%Z.
  - cbn [has_char]. rewrite Hd. reflexivity.
  - rewrite IH by (apply Z.div_pos; lia).
    cbn [has_char]. rewrite Hd. reflexivity.
Qed.

Lemma number_from_digits (fuel : nat) :
  forall n acc,
    (0 <= n < 2 ^ Z.of_nat fuel)%Z ->
    exists k : nat,
      forall a, number_from a (digits_of fuel n acc)
                = number_from (a * 10 ^ Z.of_nat k + n)%Z acc.
Proof.
  induction fuel as [| fuel IH]; intros n acc Hn.
  - exists 0. intro a. cbn [digits_of].
    change (2 ^ Z.of_nat 0)%Z with 1%Z in Hn.
    change (10 ^ Z.of_nat 0)%Z with 1%Z. f_equal. lia.
  - destruct (mod10_digit n (proj1 Hn)) as [Hk Hz].
    destruct (digit_char _ Hk) as [Hdigit _].
    cbn [digits_of]. destruct (n <? 10)%Z eqn:Hlt.
    + exists 1. intro a. cbn [number_from]. rewrite Hdigit, Hz.
      apply Z.ltb_lt in Hlt. rewrite Z.mod_small by lia.
      change (10 ^ Z.of_nat 1)%Z with 10%Z. f_equal. lia.
    + apply Z.ltb_ge in Hlt.
      destruct (IH (n / 10)%Z
                  (String (ascii_of_nat (48 + Z.to_nat (n mod 10))) acc))
        as [k Hk'].
      { split; [apply Z.div_pos; lia |].
        rewrite Nat2Z.inj_succ, Z.pow_succ_r in Hn by lia.
        apply Z.div_lt_upper_bound; lia. }
      exists (S k). intro a. rewrite Hk'. cbn [number_from].
      rewrite Hdigit, Hz. f_equal.
      rewrite Nat2Z.inj_succ, Z.pow_succ_r by lia.
      pose proof (Z.div_mod n 10 ltac:(lia)). lia.
Qed.

Lemma digits_of_nonempty (fuel : nat) :
  forall n acc, acc <> EmptyString -> digits_of fuel n acc <> EmptyString.
Proof.
  induction fuel as [| fuel IH]; intros n acc Hacc; [exact Hacc |].
  cbn [digits_of]. destruct (n <? 10)%Z; [discriminate |].
  apply IH. discriminate.
Qed.

Lemma format_int_digits (n : Z) :
  (0 <= n)%Z ->
  number (format_int n) = Some n /\
  has_char ":" (format_int n) = false /\
  has_char "-" (format_int n) = false.
Proof.
  intro Hn. unfold format_int.
  destruct (Z.ltb_spec n 0) as [Hneg | _]; [lia |].
  split; [| split; rewrite has_char_digits; auto].
  assert (Hbound : (0 <= n < 2 ^ Z.of_nat (S (Z.to_nat (Z.log2 n))))%Z).
  { split; [exact Hn |].
    rewrite Nat2Z.inj_succ, Z2Nat.id by apply Z.log2_nonneg.
    destruct (Z.eq_dec n 0) as [-> | Hne]; [reflexivity |].
    apply Z.log2_spec. lia. }
  destruct (number_from_digits _ n "" Hbound) as [k Hk].
  unfold number.
  destruct (digits_of (S (Z.to_nat (Z.log2 n))) n "") eqn:E.
  - exfalso. cbn [digits_of] in E. destruct (n <? 10)%Z;
      [discriminate E |].
    revert E. apply digits_of_nonempty. discriminate.
  - rewrite Hk. reflexivity.
Qed.

(** X17. A location written by [stringify_location] reads back: for a
    chromosome, a strand and an optional region tag without [':'] and
    coordinates that are not negative, the string is an item the
    [Region] parser accepts, and the region it gives carries the string
    as its name and the chromosome, coordinates and strand that were
    written. *)
Theorem stringify_location_reads_back
    (chrom : string) (start stop : Z) (strand : string)
    (region : option string) :
  has_char ":" chrom = false ->
  has_char ":" strand = false ->
  match region with
  | Some r => has_char ":" r = false
  | None => True
  end ->
  (0 <= start)%Z -> (0 <= stop)%Z ->
  Region_init parse_location
    (stringify_location chrom start stop strand region)
  = Ok (mkRegion (stringify_location chrom start stop strand region)
                 chrom start stop strand).
Proof.
  intros Hchrom Hstrand Hregion Hstart Hstop.
  destruct (format_int_digits start Hstart) as [Ns [Cs Ds]].
  destruct (format_int_digits stop Hstop) as [Ne [Ce De]].
  assert (Hmid : has_char ":"
                   (String.append (format_int start)
                      (String.append "-" (format_int stop))) = false)
    by (rewrite !has_char_app, Cs, Ce; reflexivity).
  assert (Hsplit : split_on ":"
                     (String.append chrom
                        (String.append ":"
                           (String.append (format_int start)
                              (String.append "-"
                                 (String.append (format_int stop)
                                    (String.append ":" strand))))))
                   = [chrom;
                      String.append (format_int start)
                        (String.append "-" (format_int stop));
                      strand]).
  { change (String.append ":" ?s) with (String ":" s).
    rewrite (split_on_app ":" chrom) by exact Hchrom.
    replace (String.append (format_int start)
               (String.append "-"
                  (String.append (format_int stop)
                     (String.append ":" strand))))
      with (String.append
              (String.append (format_int start)
                 (String.append "-" (format_int stop)))
              (String ":" strand)).
    - rewrite (split_on_app ":" _ strand Hmid),
        (split_on_none ":" strand Hstrand). reflexivity.
    - rewrite !string_append_assoc. reflexivity. }
  assert (Hrange : split_on "-"
                     (String.append (format_int start)
                        (String.append "-" (format_int stop)))
                   = [format_int start; format_int stop]).
  { change (String.append "-" ?s) with (String "-" s).
    rewrite (split_on_app "-" _ _ Ds), (split_on_none "-" _ De).
    reflexivity. }
  unfold Region_init, parse_location, stringify_location.
  destruct region as [r |].
  - change (String.append ":" ?s) with (String ":" s) at 1.
    rewrite (split_on_app ":" r _ Hregion), Hsplit, Hrange, Ns, Ne.
    reflexivity.
  - rewrite Hsplit, Hrange, Ns, Ne. reflexivity.
Qed.

Lemma stringify_location_reads_back_witness :
  stringify_location "chr1" 100 200 "+" (Some "exon") = exonA /\
  Region_init parse_location
    (stringify_location "chr1" 100 200 "+" (Some "exon"))
  = Ok (mkRegion (stringify_location "chr1" 100 200 "+" (Some "exon"))
                 "chr1" 100 200 "+").
Proof.
  split; [vm_compute; reflexivity |].
  apply stringify_location_reads_back;
    [reflexivity | reflexivity | reflexivity | lia | lia].
Defined.
